(** * grb_shader: the local-volume galaxy catalogue

    A shallow embedding of [grb_shader/catalog.py]: the [Galaxy] record with
    its derived ellipse geometry, the point-in-ellipse test, the
    [LocalVolume] mapping with its search, coverage and orientation
    sampling, and the coordinate-token parser.

    Numbers.  Every numeric value of the program is a binary64 double.
    Two readings of the arithmetic are given.

    In the exact reading a number is an [f64]: a real number, or one of the
    three IEEE special values (plus infinity, minus infinity, not-a-number).
    Arithmetic follows IEEE 754 on the special values and is exact on the
    reals; the two zeros are not told apart, rounding and range are left
    out, and so nothing raises.  The construction of a galaxy, the search,
    the coverage, the catalogue and the sampling are stated in it.

    In the binary64 reading (the section on the containment test as it
    executes) a number is an IEEE binary64 value, every operation is
    rounded to nearest even, and the square of a Python float raises
    [OverflowError] when it is out of range.  What is said of the verdict
    of [contains_point] on particular numbers is stated in it. *)

From Stdlib Require Import Reals Lra List String Ascii Bool ZArith SpecFloat.
Import ListNotations.

Local Open Scope R_scope.

(** ** Doubles *)

Inductive f64 : Type :=
| Fin (r : R)
| PInf
| NInf
| NaN.

Definition Rsign (x : R) : comparison :=
  match total_order_T x 0 with
  | inleft (left _) => Lt
  | inleft (right _) => Eq
  | inright _ => Gt
  end.

(** The infinity of a given sign; a zero sign gives NaN (0 * inf, 0 / 0). *)
Definition signed_inf (c : comparison) : f64 :=
  match c with
  | Gt => PInf
  | Lt => NInf
  | Eq => NaN
  end.

Definition fneg (x : f64) : f64 :=
  match x with
  | Fin r => Fin (- r)
  | PInf => NInf
  | NInf => PInf
  | NaN => NaN
  end.

Definition fadd (x y : f64) : f64 :=
  match x, y with
  | NaN, _ | _, NaN => NaN
  | Fin r, Fin s => Fin (r + s)
  | PInf, NInf | NInf, PInf => NaN
  | PInf, _ | _, PInf => PInf
  | NInf, _ | _, NInf => NInf
  end.

Definition fsub (x y : f64) : f64 :=
  match x, y with
  | NaN, _ | _, NaN => NaN
  | Fin r, Fin s => Fin (r - s)
  | PInf, PInf | NInf, NInf => NaN
  | PInf, _ | _, NInf => PInf
  | NInf, _ | _, PInf => NInf
  end.

Definition fmul (x y : f64) : f64 :=
  match x, y with
  | NaN, _ | _, NaN => NaN
  | Fin r, Fin s => Fin (r * s)
  | Fin r, PInf | PInf, Fin r => signed_inf (Rsign r)
  | Fin r, NInf | NInf, Fin r => signed_inf (CompOpp (Rsign r))
  | PInf, PInf | NInf, NInf => PInf
  | PInf, NInf | NInf, PInf => NInf
  end.

Definition fdiv (x y : f64) : f64 :=
  match x, y with
  | NaN, _ | _, NaN => NaN
  | Fin r, Fin s =>
      match Rsign s with
      | Eq => signed_inf (Rsign r)
      | _ => Fin (r / s)
      end
  | Fin _, (PInf | NInf) => Fin 0
  | PInf, Fin s => match Rsign s with Lt => NInf | _ => PInf end
  | NInf, Fin s => match Rsign s with Lt => PInf | _ => NInf end
  | (PInf | NInf), (PInf | NInf) => NaN
  end.

(** [x ** 2] *)
Definition fpow2 (x : f64) : f64 := fmul x x.

(** [x <= y]; every comparison with NaN is false. *)
Definition fle (x y : f64) : bool :=
  match x, y with
  | NaN, _ | _, NaN => false
  | Fin r, Fin s => if Rle_dec r s then true else false
  | NInf, _ | _, PInf => true
  | PInf, _ | _, NInf => false
  end.

Definition flt (x y : f64) : bool :=
  match x, y with
  | NaN, _ | _, NaN => false
  | Fin r, Fin s => if Rlt_dec r s then true else false
  | PInf, _ | _, NInf => false
  | NInf, _ | _, PInf => true
  end.

Definition isnan (x : f64) : bool :=
  match x with
  | NaN => true
  | _ => false
  end.

Definition isfinite (x : f64) : bool :=
  match x with
  | Fin _ => true
  | _ => false
  end.

(** NumPy's constants and elementary functions. *)
Definition np_pi : f64 := Fin PI.

Definition np_deg2rad (x : f64) : f64 := fmul x (Fin (PI / 180)).

Definition np_cos (x : f64) : f64 :=
  match x with
  | Fin r => Fin (cos r)
  | _ => NaN
  end.

Definition np_sin (x : f64) : f64 :=
  match x with
  | Fin r => Fin (sin r)
  | _ => NaN
  end.

(** ** Sky coordinates and galaxies *)

Inductive Frame : Type := ICRS.

Inductive AngleUnit : Type := hourangle | deg.

(** An astropy [SkyCoord]: the arguments it was built from, and the two
    angles in degrees that [center.ra.deg] and [center.dec.deg] read back. *)
Record SkyCoord : Type := mkSkyCoord {
  sc_text : string;
  sc_distance_Mpc : f64;
  sc_frame : Frame;
  sc_unit : AngleUnit * AngleUnit;
  ra_deg : f64;
  dec_deg : f64
}.

Record Galaxy : Type := mkGalaxy {
  name : string;
  distance : f64;
  center : SkyCoord;
  radius : f64;
  ratio : f64;
  angle : f64;
  a : f64;
  b : f64;
  area : f64
}.

(** The dataclass constructor followed by [__post_init__]. *)
Definition post_init (name : string) (distance : f64) (center : SkyCoord)
    (radius ratio angle : f64) : Galaxy :=
  let a := fdiv radius (Fin 60) in
  let b := fmul a ratio in
  let area := fmul (fmul np_pi (np_deg2rad a)) (np_deg2rad b) in
  mkGalaxy name distance center radius ratio angle a b area.

(** [galaxy.angle = v] *)
Definition set_angle (g : Galaxy) (v : f64) : Galaxy :=
  mkGalaxy (name g) (distance g) (center g) (radius g) (ratio g) v
           (a g) (b g) (area g).

Definition contains_point (g : Galaxy) (ra dec : f64) : bool :=
  let cos_angle := np_cos (fsub np_pi (np_deg2rad (angle g))) in
  let sin_angle := np_sin (fsub np_pi (np_deg2rad (angle g))) in
  let x := fsub ra (ra_deg (center g)) in
  let y := fsub dec (dec_deg (center g)) in
  let x_t := fsub (fmul x cos_angle) (fmul y sin_angle) in
  let y_t := fadd (fmul x sin_angle) (fmul y cos_angle) in
  let r_norm :=
    fadd (fdiv (fpow2 x_t) (fpow2 (fdiv (a g) (Fin 2))))
         (fdiv (fpow2 y_t) (fpow2 (fdiv (b g) (Fin 2)))) in
  if fle r_norm (Fin 1) then true else false.

(** ** Python exceptions and results *)

Inductive exn : Type :=
| ValueError (msg : string)
| AttributeError (msg : string)
| OverflowError (msg : string)
| KeyError (key : string).

Inductive result (A : Type) : Type :=
| Ok (v : A)
| Raise (e : exn).

Arguments Ok {A} v.
Arguments Raise {A} e.

Definition bind {A B : Type} (m : result A) (k : A -> result B) : result B :=
  match m with
  | Ok v => k v
  | Raise e => Raise e
  end.

Notation "x <- m ;; k" := (bind m (fun x => k))
  (at level 61, m at next level, right associativity).

(** ** Insertion-ordered dictionaries

    A Python [dict] is kept as the list of its items in insertion order.
    Assigning to a key that is present replaces the value where it stands;
    a new key goes to the end. *)

Definition dict (V : Type) : Type := list (string * V).

Fixpoint dict_get {V : Type} (d : dict V) (k : string) : option V :=
  match d with
  | [] => None
  | (k', v) :: rest => if String.eqb k k' then Some v else dict_get rest k
  end.

(** [k in d] *)
Definition dict_contains {V : Type} (d : dict V) (k : string) : bool :=
  match dict_get d k with
  | Some _ => true
  | None => false
  end.

(** [d[k]] *)
Definition dict_getitem {V : Type} (d : dict V) (k : string) : result V :=
  match dict_get d k with
  | Some v => Ok v
  | None => Raise (KeyError k)
  end.

(** [d[k] = v] *)
Fixpoint dict_setitem {V : Type} (d : dict V) (k : string) (v : V) : dict V :=
  match d with
  | [] => [(k, v)]
  | (k', v') :: rest =>
      if String.eqb k k' then (k', v) :: rest
      else (k', v') :: dict_setitem rest k v
  end.

Definition dict_keys {V : Type} (d : dict V) : list string := map fst d.

(** ** The local volume *)

Record LocalVolume : Type := mkLocalVolume {
  galaxies : dict Galaxy
}.

(** The [for name, galaxy in self.galaxies.items()] loop of
    [intercepts_galaxy], with its early [return]. *)
Fixpoint intercepts_items (items : dict Galaxy) (ra dec : f64)
    : bool * option Galaxy :=
  match items with
  | [] => (false, None)
  | (_, galaxy) :: rest =>
      if contains_point galaxy ra dec then (true, Some galaxy)
      else intercepts_items rest ra dec
  end.

Definition intercepts_galaxy (lv : LocalVolume) (ra dec : f64)
    : bool * option Galaxy :=
  intercepts_items (galaxies lv) ra dec.

(** One turn of the accumulation loop of [percentage_sky_cover]. *)
Definition add_area (total_area : f64) (item : string * Galaxy) : f64 :=
  if negb (isnan (area (snd item))) then fadd total_area (area (snd item))
  else total_area.

Definition total_area_of (items : dict Galaxy) : f64 :=
  fold_left add_area items (Fin 0).

Definition percentage_sky_cover (lv : LocalVolume) : f64 :=
  let total_area := total_area_of (galaxies lv) in
  let fraction_sky_cover := fdiv total_area (fmul (Fin 4) np_pi) in
  fmul fraction_sky_cover (Fin 100).

(** [object] defines no [__getattr__], so [super().__getattr__] fails while
    looking that method up. *)
Definition super_getattr (name : string) : result Galaxy :=
  Raise (AttributeError "'super' object has no attribute '__getattr__'").

(** [LocalVolume.__getattr__] *)
Definition getattr (lv : LocalVolume) (name : string) : result Galaxy :=
  if dict_contains (galaxies lv) name then dict_getitem (galaxies lv) name
  else super_getattr name.

(** ** Orientation sampling

    NumPy's global generator is outside the repository; it is an interface:
    a state, the state that an accepted seed sets, and the draw of one
    double of [0, 1), which [np.random.uniform] scales to the requested
    interval. *)

Class RandomState (rng : Type) : Type := {
  seeded_state : N -> rng;
  random_sample : rng -> R * rng
}.

(** The contract of the draw: a value of the half-open unit interval. *)
Definition unit_draws (rng : Type) `{RandomState rng} : Prop :=
  forall st : rng, 0 <= fst (random_sample st) < 1.

Section Sampling.
Context {rng : Type} `{RandomState rng}.

(** [np.random.seed(n)] for an integer [n]: NumPy accepts the seeds from 0
    to 2**32 - 1 and raises [ValueError] for every other integer. *)
Definition np_random_seed (n : Z) : result rng :=
  if ((0 <=? n)%Z && (n <? 2 ^ 32)%Z)%bool then Ok (seeded_state (Z.to_N n))
  else Raise (ValueError "Seed must be between 0 and 2**32 - 1").

(** [np.random.uniform(low, high)] *)
Definition np_random_uniform (low high : f64) (st : rng) : f64 * rng :=
  let (u, st') := random_sample st in
  (fadd low (fmul (fsub high low) (Fin u)), st').

(** The loop of [sample_angles]: one draw per item, in iteration order. *)
Fixpoint sample_items (items : dict Galaxy) (st : rng)
    : dict Galaxy * rng :=
  match items with
  | [] => ([], st)
  | (name, galaxy) :: rest =>
      let (v, st1) := np_random_uniform (Fin 0) (Fin 360) st in
      let (rest', st2) := sample_items rest st1 in
      ((name, set_angle galaxy v) :: rest', st2)
  end.

(** The first [n] values that successive calls of
    [np.random.uniform(0, 360)] return from the state [st]. *)
Fixpoint uniform_draws (n : nat) (st : rng) : list f64 :=
  match n with
  | O => []
  | S n' =>
      let (v, st1) := np_random_uniform (Fin 0) (Fin 360) st in
      v :: uniform_draws n' st1
  end.

(** [if seed: np.random.seed(seed)]; the test is false for [None] and
    for [0], which leave the generator as it is. *)
Definition seed_if_given (seed : option Z) (st : rng) : result rng :=
  match seed with
  | Some n => if Z.eqb n 0 then Ok st else np_random_seed n
  | None => Ok st
  end.

(** The galaxies are changed in the loop only: when the seeding raises,
    nothing has been assigned. *)
Definition sample_angles (seed : option Z) (lv : LocalVolume) (st : rng)
    : result (LocalVolume * rng) :=
  st0 <- seed_if_given seed st ;;
  let (items, st1) := sample_items (galaxies lv) st0 in
  Ok (mkLocalVolume items, st1).
End Sampling.

(** ** The coordinate parser *)

Local Open Scope string_scope.

(** [c in s], for a one-character [c] *)
Fixpoint str_in (c : ascii) (s : string) : bool :=
  match s with
  | EmptyString => false
  | String c' s' => if Ascii.eqb c' c then true else str_in c s'
  end.

(** [s.split(c)], for a one-character separator: one more part than there
    are separators. *)
Fixpoint str_split (c : ascii) (s : string) : list string :=
  match s with
  | EmptyString => [EmptyString]
  | String c' s' =>
      if Ascii.eqb c' c then EmptyString :: str_split c s'
      else match str_split c s' with
           | part :: parts => String c' part :: parts
           | [] => [String c' EmptyString]
           end
  end.

(** [s[:n]] *)
Fixpoint str_take (n : nat) (s : string) : string :=
  match n, s with
  | S n', String c s' => String c (str_take n' s')
  | _, _ => EmptyString
  end.

(** [s[n:]] *)
Fixpoint str_drop (n : nat) (s : string) : string :=
  match n, s with
  | S n', String _ s' => str_drop n' s'
  | _, _ => s
  end.

(** [s[i:j]] for [i <= j] *)
Definition str_slice (i j : nat) (s : string) : string :=
  str_take (j - i) (str_drop i s).

(** f"{ra[:2]}h{ra[2:4]}min{ra[4:]}s" *)
Definition ra_string_of (ra : string) : string :=
  str_take 2 ra ++ "h" ++ str_slice 2 4 ra ++ "min" ++ str_drop 4 ra ++ "s".

(** f"{sign}{dec[:2]}.{dec[2:]}" *)
Definition dec_str_of (sign : ascii) (dec : string) : string :=
  String sign (str_take 2 dec ++ "." ++ str_drop 2 dec).

(** The catalogue table as [pd.read_csv] hands it over: the missing-value
    sentinel of a numeric column has already become NaN. *)
Record Row : Type := mkRow {
  row_name : string;
  row_skycoord : string;
  row_radius : f64;
  row_ratio : f64;
  row_distance : f64
}.

Section Catalogue.
(** astropy's reading of the text "<ra> <dec>" in units (hourangle, deg):
    the two angles in degrees, or its own error. *)
Variable astropy_angles : string -> result (f64 * f64).

Definition parse_skycoord (x : string) (distance : f64) : result SkyCoord :=
  let sign := if str_in "+" x then "+"%char else "-"%char in
  match str_split sign x with
  | [ra; dec] =>
      let ra_string := ra_string_of ra in
      let dec_str := dec_str_of sign dec in
      let text := ra_string ++ " " ++ dec_str in
      angles <- astropy_angles text ;;
      Ok (mkSkyCoord text distance ICRS (hourangle, deg)
                     (fst angles) (snd angles))
  | [_] => Raise (ValueError "not enough values to unpack (expected 2, got 1)")
  | _ => Raise (ValueError "too many values to unpack (expected 2)")
  end.

(** The loop of [from_lv_catalog] over the rows of the table. *)
Fixpoint load_rows (table : list Row) (output : dict Galaxy)
    : result (dict Galaxy) :=
  match table with
  | [] => Ok output
  | row :: rest =>
      sk <- parse_skycoord (row_skycoord row) (row_distance row) ;;
      let galaxy :=
        post_init (row_name row) (row_distance row) sk
                  (row_radius row) (row_ratio row) (Fin 0) in
      load_rows rest (dict_setitem output (row_name row) galaxy)
  end.

Definition from_lv_catalog (table : list Row) : result LocalVolume :=
  output <- load_rows table [] ;;
  Ok (mkLocalVolume output).
End Catalogue.

Local Close Scope string_scope.

(** ** Specification-side definitions

    The containment test and the coverage written after the prose of the
    specification, step by step; the theorems below compare them with the
    definitions taken from the code. *)

(** Step 1: the rotation angle, pi minus the position angle in radians. *)
Definition spec_rotation_angle (g : Galaxy) : f64 :=
  fsub np_pi (np_deg2rad (angle g)).

(** Step 2: the offsets of the query point from the centre. *)
Definition spec_offsets (g : Galaxy) (ra dec : f64) : f64 * f64 :=
  (fsub ra (ra_deg (center g)), fsub dec (dec_deg (center g))).

(** Step 3: the rotation matrix of angle [t] applied to a point. *)
Definition spec_rotate (t : f64) (p : f64 * f64) : f64 * f64 :=
  (fsub (fmul (fst p) (np_cos t)) (fmul (snd p) (np_sin t)),
   fadd (fmul (fst p) (np_sin t)) (fmul (snd p) (np_cos t))).

(** Step 4: the normalised radius. *)
Definition spec_r_norm (g : Galaxy) (ra dec : f64) : f64 :=
  let p := spec_rotate (spec_rotation_angle g) (spec_offsets g ra dec) in
  fadd (fdiv (fpow2 (fst p)) (fpow2 (fdiv (a g) (Fin 2))))
       (fdiv (fpow2 (snd p)) (fpow2 (fdiv (b g) (Fin 2)))).

(** The same radius over the reals, for a galaxy whose fields are real. *)
Definition ellipse_r (cra cdec theta av bv ra dec : R) : R :=
  let c := cos (PI - theta * (PI / 180)) in
  let s := sin (PI - theta * (PI / 180)) in
  let x := ra - cra in
  let y := dec - cdec in
  let x_t := x * c - y * s in
  let y_t := x * s + y * c in
  x_t ^ 2 / (av / 2) ^ 2 + y_t ^ 2 / (bv / 2) ^ 2.

(** The areas that are not NaN, in iteration order. *)
Definition counted_areas (items : dict Galaxy) : list f64 :=
  filter (fun v => negb (isnan v)) (map (fun item => area (snd item)) items).

(** Their sum. *)
Definition spec_area_sum (items : dict Galaxy) : f64 :=
  fold_right fadd (Fin 0) (counted_areas items).

(** The names with the angles they carry, in iteration order. *)
Definition angle_table (lv : LocalVolume) : list (string * f64) :=
  map (fun item => (fst item, angle (snd item))) (galaxies lv).

(** ** Sample data

    Concrete galaxies, catalogues and a generator on which the statements
    below are exercised. *)

Definition example_center : SkyCoord :=
  mkSkyCoord "01h48min13s -30.0327" (Fin 3.5) ICRS (hourangle, deg)
             (Fin 10) (Fin 20).

(** Major axis 2 degrees, minor axis 1 degree, position angle 0. *)
Definition example_galaxy : Galaxy :=
  post_init "ESO245-005" (Fin 3.5) example_center (Fin 120) (Fin (1 / 2)) (Fin 0).

(** A row whose ratio column held the missing-value sentinel. *)
Definition galaxy_nan_ratio : Galaxy :=
  post_init "KKH5" (Fin 3.5) example_center (Fin 60) NaN (Fin 0).


(** A second galaxy on the same centre, twice as large as the first. *)
Definition example_galaxy_wide : Galaxy :=
  post_init "NGC0625" (Fin 4) example_center (Fin 240) (Fin (1 / 2)) (Fin 0).

Definition example_volume : LocalVolume :=
  mkLocalVolume [("ESO245-005"%string, example_galaxy);
                 ("NGC0625"%string, example_galaxy_wide)].

(** A linear congruential generator standing for NumPy's global one. *)
Definition lcg_modulus : Z := 2147483648.

Definition lcg_next (st : Z) : Z := ((1103515245 * st + 12345) mod lcg_modulus)%Z.

#[export] Instance lcg_state : RandomState Z := {
  seeded_state := fun n => (Z.of_N n mod lcg_modulus)%Z;
  random_sample := fun st => (IZR (st mod lcg_modulus) / IZR lcg_modulus, lcg_next st)
}.

(** ** The containment test as it executes

    The definitions above read the arithmetic of the program over the
    reals.  The ones below follow it as it runs: every number is an IEEE
    binary64 value ([spec_float] with precision 53 and maximal exponent
    1024, rounding to nearest even), and the one operation of the test that
    can raise does so.  The fields [a] and [b] are Python floats, so that
    [(self.a / 2) ** 2] raises [OverflowError] when the square of a finite
    number is out of range; the rotated offsets are NumPy scalars, whose
    square and quotient give infinities and NaN instead of raising.  A
    square [x ** 2] is the correctly rounded product of [x] with itself.
    The cosine and the sine belong to the C library and are an interface. *)

Definition binary64 : Type := spec_float.

Definition bin_add : binary64 -> binary64 -> binary64 := SFadd 53 1024.
Definition bin_sub : binary64 -> binary64 -> binary64 := SFsub 53 1024.
Definition bin_mul : binary64 -> binary64 -> binary64 := SFmul 53 1024.
Definition bin_div : binary64 -> binary64 -> binary64 := SFdiv 53 1024.
Definition bin_leb : binary64 -> binary64 -> bool := SFleb.

Definition bin_isnan (x : binary64) : bool :=
  match x with
  | S754_nan => true
  | _ => false
  end.

Definition bin_isfinite (x : binary64) : bool :=
  match x with
  | S754_zero _ | S754_finite _ _ _ => true
  | _ => false
  end.

(** A zero of either sign. *)
Definition bin_iszero (x : binary64) : bool :=
  match x with
  | S754_zero _ => true
  | _ => false
  end.

(** The double nearest to an integer: the literals [1], [2], [60], ... *)
Definition bin_of_Z (z : Z) : binary64 := binary_normalize 53 1024 z 0 false.

(** [np.pi], 0x1.921fb54442d18p+1 *)
Definition np_pi64 : binary64 := S754_finite false 7074237752028440 (-51).

(** [np.deg2rad(x)] is [x * (pi / 180)], the factor being a double. *)
Definition np_deg2rad64 (x : binary64) : binary64 :=
  bin_mul x (bin_div np_pi64 (bin_of_Z 180)).

(** The cosine and sine of the C library behind [np.cos] and [np.sin]. *)
Class Libm : Type := {
  np_cos64 : binary64 -> binary64;
  np_sin64 : binary64 -> binary64
}.

(** [x ** 2] of a NumPy scalar *)
Definition np_pow2 (x : binary64) : binary64 := bin_mul x x.

(** [x ** 2] of a Python float: the square of a finite number that is out
    of range raises; infinities, NaN and an underflow to zero do not. *)
Definition py_pow2 (x : binary64) : result binary64 :=
  match x, bin_mul x x with
  | S754_finite _ _ _, S754_infinity _ =>
      Raise (OverflowError "(34, 'Numerical result out of range')")
  | _, square => Ok square
  end.

Record Galaxy64 : Type := mkGalaxy64 {
  name64 : string;
  distance64 : binary64;
  ra_deg64 : binary64;
  dec_deg64 : binary64;
  radius64 : binary64;
  ratio64 : binary64;
  angle64 : binary64;
  a64 : binary64;
  b64 : binary64;
  area64 : binary64
}.

(** The dataclass constructor followed by [__post_init__]; the centre is
    given by its two angles in degrees. *)
Definition post_init64 (name : string) (distance ra_deg dec_deg : binary64)
    (radius ratio angle : binary64) : Galaxy64 :=
  let a := bin_div radius (bin_of_Z 60) in
  let b := bin_mul a ratio in
  let area := bin_mul (bin_mul np_pi64 (np_deg2rad64 a)) (np_deg2rad64 b) in
  mkGalaxy64 name distance ra_deg dec_deg radius ratio angle a b area.


(** [np.pi - np.deg2rad(self.angle)] *)
Definition rotation64 (g : Galaxy64) : binary64 :=
  bin_sub np_pi64 (np_deg2rad64 (angle64 g)).

(** Lines 47 to 64, the cosine and the sine of the rotation being given. *)
Definition contains_point_rotated (cos_angle sin_angle : binary64)
    (g : Galaxy64) (ra dec : binary64) : result bool :=
  let x := bin_sub ra (ra_deg64 g) in
  let y := bin_sub dec (dec_deg64 g) in
  let x_t := bin_sub (bin_mul x cos_angle) (bin_mul y sin_angle) in
  let y_t := bin_add (bin_mul x sin_angle) (bin_mul y cos_angle) in
  major <- py_pow2 (bin_div (a64 g) (bin_of_Z 2)) ;;
  minor <- py_pow2 (bin_div (b64 g) (bin_of_Z 2)) ;;
  let r_norm :=
    bin_add (bin_div (np_pow2 x_t) major) (bin_div (np_pow2 y_t) minor) in
  if bin_leb r_norm (bin_of_Z 1) then Ok true else Ok false.

Definition contains_point64 `{Libm} (g : Galaxy64) (ra dec : binary64)
    : result bool :=
  let cos_angle := np_cos64 (rotation64 g) in
  let sin_angle := np_sin64 (rotation64 g) in
  contains_point_rotated cos_angle sin_angle g ra dec.

(** One turn of the loop of [percentage_sky_cover], and the loop. *)
Definition add_area64 (total_area : binary64) (item : string * Galaxy64)
    : binary64 :=
  if negb (bin_isnan (area64 (snd item)))
  then bin_add total_area (area64 (snd item))
  else total_area.

Definition total_area64 (items : list (string * Galaxy64)) : binary64 :=
  fold_left add_area64 items (bin_of_Z 0).

Definition percentage_sky_cover64 (items : list (string * Galaxy64))
    : binary64 :=
  let total_area := total_area64 items in
  let fraction_sky_cover :=
    bin_div total_area (bin_mul (bin_of_Z 4) np_pi64) in
  bin_mul fraction_sky_cover (bin_of_Z 100).

(** *** Specification side *)

(** The normalised radius of the specification, step by step, in
    binary64: rotation, offsets, rotated offsets, sum of the two
    quotients by the squared half axes. *)
Definition spec_rotated64 `{Libm} (g : Galaxy64) (ra dec : binary64)
    : binary64 * binary64 :=
  let c := np_cos64 (bin_sub np_pi64 (np_deg2rad64 (angle64 g))) in
  let s := np_sin64 (bin_sub np_pi64 (np_deg2rad64 (angle64 g))) in
  let x := bin_sub ra (ra_deg64 g) in
  let y := bin_sub dec (dec_deg64 g) in
  (bin_sub (bin_mul x c) (bin_mul y s), bin_add (bin_mul x s) (bin_mul y c)).

Definition spec_r_norm64 `{Libm} (g : Galaxy64) (ra dec : binary64)
    : binary64 :=
  let half_a := bin_div (a64 g) (bin_of_Z 2) in
  let half_b := bin_div (b64 g) (bin_of_Z 2) in
  let p := spec_rotated64 g ra dec in
  bin_add (bin_div (bin_mul (fst p) (fst p)) (bin_mul half_a half_a))
          (bin_div (bin_mul (snd p) (snd p)) (bin_mul half_b half_b)).

(** Not negative: a zero, a finite number or an infinity whose sign bit
    is clear, or NaN. *)
Definition not_negative (x : binary64) : Prop :=
  match x with
  | S754_zero s | S754_infinity s | S754_finite s _ _ => s = false
  | S754_nan => True
  end.


(** A half axis whose square is out of range. *)
Definition square_overflows (x : binary64) : bool :=
  match x, bin_mul x x with
  | S754_finite _ _ _, S754_infinity _ => true
  | _, _ => false
  end.

(** *** Sample data *)

(** The values of the C library at the four arguments that the examples
    use: the rotations of the position angles 0, 180, 38.6 and 218.6, which
    are [pi], [0], 0x1.3be400750dce2p+1 and -0x1.58eed33cd40d8p-1.  No other
    argument is tabulated; NaN marks them. *)
Definition bin_same (x y : binary64) : bool :=
  match x, y with
  | S754_zero s, S754_zero t => Bool.eqb s t
  | S754_finite s m e, S754_finite t n f =>
      (Bool.eqb s t && Pos.eqb m n && Z.eqb e f)%bool
  | _, _ => false
  end.

Definition rotation_38_6 : binary64 :=
  S754_finite false 5557206767426786 (-51).

Definition rotation_218_6 : binary64 :=
  S754_finite true 6068123938406616 (-53).

#[export] Instance libm_table : Libm := {
  np_cos64 := fun x =>
    if bin_same x np_pi64 then bin_of_Z (-1)
    else if bin_same x (S754_zero false) then bin_of_Z 1
    else if bin_same x rotation_38_6
         then S754_finite true 7039310616735613 (-53)
    else if bin_same x rotation_218_6
         then S754_finite false 7039310616735613 (-53)
    else S754_nan;
  np_sin64 := fun x =>
    if bin_same x np_pi64 then S754_finite false 4967757600021511 (-105)
    else if bin_same x (S754_zero false) then S754_zero false
    else if bin_same x rotation_38_6
         then S754_finite false 5619407838528893 (-53)
    else if bin_same x rotation_218_6
         then S754_finite true 5619407838528893 (-53)
    else S754_nan
}.

(** Radius 600 arcmin and ratio 0.5: axes of 10 and 5 degrees about the
    centre (10, 20), position angle 0. *)
Definition galaxy64_example : Galaxy64 :=
  post_init64 "ESO245-005" (bin_of_Z 3) (bin_of_Z 10) (bin_of_Z 20)
              (bin_of_Z 600) (S754_finite false 4503599627370496 (-53))
              (bin_of_Z 0).


(** Radius 1e201 arcmin and a missing ratio. *)
Definition galaxy64_huge_nan : Galaxy64 :=
  post_init64 "huge" (bin_of_Z 3) (bin_of_Z 10) (bin_of_Z 20)
              (S754_finite false 7354491775826673 615) S754_nan
              (bin_of_Z 0).

(** Radius 1e-160 arcmin. *)
Definition galaxy64_tiny : Galaxy64 :=
  post_init64 "tiny" (bin_of_Z 3) (bin_of_Z 10) (bin_of_Z 20)
              (S754_finite false 6331658277711476 (-584)) (bin_of_Z 1)
              (bin_of_Z 0).

(** A missing radius. *)
Definition galaxy64_nan : Galaxy64 :=
  post_init64 "KK16" (bin_of_Z 3) (bin_of_Z 10) (bin_of_Z 20)
              S754_nan (S754_finite false 4503599627370496 (-53))
              (bin_of_Z 0).


(** ** Further definitions

    The rest of [catalog.py] that can be written down, the data-file
    listing of [setup.py], and the auxiliary notions in which their
    properties are stated. *)

(** [LocalVolume.__dir__]: the attribute names of the class (taken as
    given), then the [name] field of every galaxy in iteration order. *)
Definition dir (class_attrs : list string) (lv : LocalVolume) : list string :=
  class_attrs ++ map (fun item => name (snd item)) (galaxies lv).

(** The galaxy that [from_lv_catalog] builds from a row and its parsed
    coordinate; the position angle is left at its default. *)
Definition galaxy_of_row (row : Row) (sk : SkyCoord) : Galaxy :=
  post_init (row_name row) (row_distance row) sk
            (row_radius row) (row_ratio row) (Fin 0).

(** An item of the mapping that comes from a row of [table]: the row
    parses, and the item is its name with the galaxy built from it. *)
Definition from_table (astropy_angles : string -> result (f64 * f64))
    (table : list Row) (item : string * Galaxy) : Prop :=
  exists row sk,
    In row table /\
    parse_skycoord astropy_angles (row_skycoord row) (row_distance row) = Ok sk /\
    fst item = row_name row /\ snd item = galaxy_of_row row sk.

(** The number of occurrences of a character in a string. *)
Fixpoint str_count (c : ascii) (s : string) : nat :=
  match s with
  | EmptyString => O
  | String c' s' => if Ascii.eqb c' c then S (str_count c s') else str_count c s'
  end.

(** The sign on which [parse_skycoord] splits its token. *)
Definition chosen_sign (x : string) : ascii :=
  if str_in "+" x then "+"%char else "-"%char.

Section SamplingStates.
Context {rng : Type} `{RandomState rng}.

(** The generator after [n] calls of [np.random.uniform(0, 360)]. *)
Fixpoint draws_state (n : nat) (st : rng) : rng :=
  match n with
  | O => st
  | S n' => draws_state n' (snd (np_random_uniform (Fin 0) (Fin 360) st))
  end.
End SamplingStates.

(** *** [setup.py] *)

Local Open Scope string_scope.

(** [s.startswith(c)] and [s.endswith(c)] for a one-character [c] *)
Definition str_startswith (c : ascii) (s : string) : bool :=
  match s with
  | String c' _ => Ascii.eqb c' c
  | EmptyString => false
  end.

Fixpoint str_endswith (c : ascii) (s : string) : bool :=
  match s with
  | EmptyString => false
  | String c' EmptyString => Ascii.eqb c' c
  | String _ s' => str_endswith c s'
  end.

(** One turn of the loop of [posixpath.join]: an absolute component
    replaces what was there, otherwise it is appended, after a separator
    unless the path is empty or already ends with one. *)
Definition join_step (path b : string) : string :=
  if str_startswith "/" b then b
  else if (String.eqb path "" || str_endswith "/" path)%bool then path ++ b
  else path ++ "/" ++ b.

(** [os.path.join(a, *p)] *)
Definition os_path_join (a : string) (p : list string) : string :=
  fold_left join_step p a.

(** [find_data_files(directory)], over the triples
    [(path, directories, filenames)] that [os.walk(directory)] yields. *)
Definition find_data_files (walk : list (string * list string * list string))
    : list string :=
  flat_map (fun entry =>
              let '(path, _, filenames) := entry in
              map (fun filename => os_path_join ".." [path; filename]) filenames)
           walk.

Local Close Scope string_scope.


(** A table with a repeated name, and an astropy that reads every text as
    the same position. *)
Definition astropy_fixed : string -> result (f64 * f64) :=
  fun _ => Ok (Fin 10, Fin 20).

Definition row_first : Row :=
  mkRow "ESO245-005" "014813-300327" (Fin 120) (Fin (1 / 2)) (Fin 3.5).

Definition row_second : Row :=
  mkRow "KK16" "015520+2757" NaN (Fin (1 / 2)) (Fin 3.5).

Definition row_again : Row :=
  mkRow "ESO245-005" "014813-300327" (Fin 240) (Fin (1 / 2)) (Fin 4).

Definition row_unsigned : Row :=
  mkRow "broken" "0148133003" (Fin 1) (Fin 1) (Fin 1).

(** The coordinates that [astropy_fixed] gives for those rows. *)
Definition center_second : SkyCoord :=
  mkSkyCoord "01h55min20s +27.57" (Fin 3.5) ICRS (hourangle, deg)
             (Fin 10) (Fin 20).

Definition center_again : SkyCoord :=
  mkSkyCoord "01h48min13s -30.0327" (Fin 4) ICRS (hourangle, deg)
             (Fin 10) (Fin 20).

(** What loading [row_first], [row_second], [row_again] leaves. *)
Definition volume_reloaded : LocalVolume :=
  mkLocalVolume [("ESO245-005"%string, galaxy_of_row row_again center_again);
                 ("KK16"%string, galaxy_of_row row_second center_second)].

(** ** Facts about doubles *)

Lemma Rsign_neg (r : R) : r < 0 -> Rsign r = Lt.
Proof.
  intro Hr. unfold Rsign.
  destruct (total_order_T r 0) as [[Hlt | Heq] | Hgt]; [reflexivity | lra | lra].
Qed.

Lemma Rsign_zero (r : R) : r = 0 -> Rsign r = Eq.
Proof.
  intro Hr. unfold Rsign.
  destruct (total_order_T r 0) as [[Hlt | Heq] | Hgt]; [lra | reflexivity | lra].
Qed.

Lemma Rsign_pos (r : R) : 0 < r -> Rsign r = Gt.
Proof.
  intro Hr. unfold Rsign.
  destruct (total_order_T r 0) as [[Hlt | Heq] | Hgt]; [lra | lra | reflexivity].
Qed.

(** The three cases of a sign, each with its rewriting equation. *)
Lemma Rsign_cases (r : R) :
  (r < 0 /\ Rsign r = Lt) \/ (r = 0 /\ Rsign r = Eq) \/ (0 < r /\ Rsign r = Gt).
Proof.
  destruct (total_order_T r 0) as [[Hlt | Heq] | Hgt].
  - left. split; [assumption | now apply Rsign_neg].
  - right; left. split; [assumption | now apply Rsign_zero].
  - right; right. split; [assumption | now apply Rsign_pos].
Qed.

Lemma Rsign_opp (r : R) : Rsign (- r) = CompOpp (Rsign r).
Proof.
  destruct (Rsign_cases r) as [[Hr E] | [[Hr E] | [Hr E]]]; rewrite E; simpl.
  - apply Rsign_pos; lra.
  - apply Rsign_zero; lra.
  - apply Rsign_neg; lra.
Qed.

Ltac by_sign r :=
  let Hr := fresh "Hr" in
  let E := fresh "E" in
  destruct (Rsign_cases r) as [[Hr E] | [[Hr E] | [Hr E]]];
  rewrite ?E in *; simpl.

Lemma signed_inf_opp (c : comparison) : signed_inf (CompOpp c) = fneg (signed_inf c).
Proof. destruct c; reflexivity. Qed.

Lemma fdiv_fin (r s : R) : s <> 0 -> fdiv (Fin r) (Fin s) = Fin (r / s).
Proof.
  intro Hs. unfold fdiv. by_sign s; [reflexivity | contradiction | reflexivity].
Qed.

Lemma fle_fin (r s : R) : fle (Fin r) (Fin s) = true <-> r <= s.
Proof.
  unfold fle. destruct (Rle_dec r s); split; intro; auto; discriminate.
Qed.

Lemma flt_fin (r s : R) : flt (Fin r) (Fin s) = true <-> r < s.
Proof.
  unfold flt. destruct (Rlt_dec r s); split; intro; auto; discriminate.
Qed.

Lemma fsub_fneg (x y : f64) : fsub (fneg x) (fneg y) = fneg (fsub x y).
Proof.
  destruct x as [r | | |], y as [s | | |]; simpl; try reflexivity.
  f_equal; ring.
Qed.

Lemma fadd_fneg (x y : f64) : fadd (fneg x) (fneg y) = fneg (fadd x y).
Proof.
  destruct x as [r | | |], y as [s | | |]; simpl; try reflexivity.
  f_equal; ring.
Qed.

Lemma fpow2_fneg (x : f64) : fpow2 (fneg x) = fpow2 x.
Proof.
  destruct x as [r | | |]; unfold fpow2; simpl; try reflexivity.
  f_equal; ring.
Qed.

Lemma fadd_comm (x y : f64) : fadd x y = fadd y x.
Proof.
  destruct x as [r | | |], y as [s | | |]; simpl; try reflexivity.
  f_equal; ring.
Qed.

Lemma fadd_assoc (x y z : f64) : fadd x (fadd y z) = fadd (fadd x y) z.
Proof.
  destruct x as [r | | |], y as [s | | |], z as [t | | |]; simpl;
    try reflexivity.
  f_equal; ring.
Qed.

Lemma fadd_0_l (x : f64) : fadd (Fin 0) x = x.
Proof.
  destruct x as [r | | |]; simpl; try reflexivity. f_equal; ring.
Qed.

Lemma fmul_nan_r (x : f64) : fmul x NaN = NaN.
Proof. destruct x; reflexivity. Qed.

(** ** The containment test *)

Lemma contains_point_unfold (g : Galaxy) (ra dec : f64) :
  contains_point g ra dec = fle (spec_r_norm g ra dec) (Fin 1).
Proof.
  unfold contains_point, spec_r_norm, spec_rotate, spec_offsets,
    spec_rotation_angle; simpl.
  now destruct (fle _ _).
Qed.

Lemma spec_r_norm_real (g : Galaxy) (cra cdec theta av bv ra dec : R) :
  ra_deg (center g) = Fin cra ->
  dec_deg (center g) = Fin cdec ->
  angle g = Fin theta ->
  a g = Fin av ->
  b g = Fin bv ->
  av <> 0 ->
  bv <> 0 ->
  spec_r_norm g (Fin ra) (Fin dec) = Fin (ellipse_r cra cdec theta av bv ra dec).
Proof.
  intros Hra Hdec Hang Ha Hb Hav Hbv.
  unfold spec_r_norm, spec_rotate, spec_offsets, spec_rotation_angle, fpow2.
  rewrite Hra, Hdec, Hang, Ha, Hb.
  unfold np_deg2rad, np_pi.
  cbn [fst snd fsub fmul fadd np_cos np_sin].
  rewrite !(fdiv_fin _ 2) by lra.
  cbn [fmul].
  rewrite !fdiv_fin by nra.
  cbn [fadd]. unfold ellipse_r. f_equal. simpl. field. split; assumption.
Qed.

Lemma contains_point_real (g : Galaxy) (cra cdec theta av bv ra dec : R) :
  ra_deg (center g) = Fin cra ->
  dec_deg (center g) = Fin cdec ->
  angle g = Fin theta ->
  a g = Fin av ->
  b g = Fin bv ->
  av <> 0 ->
  bv <> 0 ->
  (contains_point g (Fin ra) (Fin dec) = true <->
   ellipse_r cra cdec theta av bv ra dec <= 1).
Proof.
  intros Hra Hdec Hang Ha Hb Hav Hbv.
  rewrite contains_point_unfold.
  rewrite (spec_r_norm_real g cra cdec theta av bv ra dec) by assumption.
  apply fle_fin.
Qed.

Lemma example_galaxy_a : a example_galaxy = Fin (120 / 60).
Proof. apply fdiv_fin; lra. Qed.

Lemma example_galaxy_b : b example_galaxy = Fin (120 / 60 * (1 / 2)).
Proof.
  change (b example_galaxy) with (fmul (a example_galaxy) (Fin (1 / 2))).
  now rewrite example_galaxy_a.
Qed.

Lemma rotation_zero_cos : cos (PI - 0 * (PI / 180)) = -1.
Proof. replace (PI - 0 * (PI / 180)) with PI by ring. apply cos_PI. Qed.

Lemma rotation_zero_sin : sin (PI - 0 * (PI / 180)) = 0.
Proof. replace (PI - 0 * (PI / 180)) with PI by ring. apply sin_PI. Qed.

(** ** Derived fields and missing values *)

Lemma Rsign_60 : Rsign 60 = Gt.
Proof. apply Rsign_pos; lra. Qed.

Lemma fdiv_60 (x : f64) :
  fdiv x (Fin 60) =
  match x with
  | Fin r => Fin (r / 60)
  | other => other
  end.
Proof. destruct x; simpl; rewrite ?Rsign_60; reflexivity. Qed.

Lemma post_init_axis_nan_area (n : string) (d : f64) (c : SkyCoord)
    (radius ratio angle : f64) :
  isnan (a (post_init n d c radius ratio angle)) = true \/
  isnan (b (post_init n d c radius ratio angle)) = true ->
  isnan (area (post_init n d c radius ratio angle)) = true.
Proof.
  unfold post_init. cbn [area a b].
  intros [Hnan | Hnan].
  - destruct (fdiv radius (Fin 60)); try discriminate.
    cbn [fmul np_deg2rad]. now rewrite fmul_nan_r.
  - destruct (fmul (fdiv radius (Fin 60)) ratio); try discriminate.
    cbn [fmul np_deg2rad]. now rewrite fmul_nan_r.
Qed.

Lemma add_area_nan (total : f64) (key : string) (g : Galaxy) :
  isnan (area g) = true -> add_area total (key, g) = total.
Proof. intro Hnan. unfold add_area. cbn [snd]. now rewrite Hnan. Qed.

Lemma total_area_skip (before after : dict Galaxy) (key : string) (g : Galaxy) :
  isnan (area g) = true ->
  total_area_of (before ++ (key, g) :: after) = total_area_of (before ++ after).
Proof.
  intro Hnan. unfold total_area_of.
  rewrite !fold_left_app. cbn [fold_left].
  now rewrite add_area_nan.
Qed.

(** C7, as amended.  Construction sets [a = radius / 60], [b = a * ratio]
    and [area = pi * rad(a) * rad(b)].  With [radius >= 0] and [ratio] in
    (0, 1] the axes satisfy [a >= 0], [b >= 0] and [b <= a].  A NaN radius
    makes both axes NaN; a NaN ratio makes [b] NaN and leaves [a] as
    computed from the radius. *)
Theorem galaxy_derived_fields (n : string) (d : f64) (c : SkyCoord)
    (radius ratio angle : f64) :
  let g := post_init n d c radius ratio angle in
  (a g = fdiv radius (Fin 60) /\
   b g = fmul (a g) ratio /\
   area g = fmul (fmul np_pi (np_deg2rad (a g))) (np_deg2rad (b g))) /\
  (fle (Fin 0) radius = true ->
   flt (Fin 0) ratio = true -> fle ratio (Fin 1) = true ->
   fle (Fin 0) (a g) = true /\ fle (Fin 0) (b g) = true /\
   fle (b g) (a g) = true) /\
  (isnan radius = true -> isnan (a g) = true /\ isnan (b g) = true) /\
  (isnan ratio = true -> isnan (b g) = true).
Proof.
  intro g. subst g. unfold post_init. cbn [a b area].
  split; [repeat split |]. rewrite fdiv_60.
  split; [| split].
  - destruct radius as [r | | |], ratio as [q | | |]; try discriminate;
      intros Hr Hq0 Hq1.
    + apply fle_fin in Hr. apply flt_fin in Hq0. apply fle_fin in Hq1.
      cbn [fmul]. repeat split; apply fle_fin; nra.
    + apply flt_fin in Hq0. cbn [fmul]. rewrite (Rsign_pos q Hq0).
      repeat split.
  - destruct radius; try discriminate. intros _. split; reflexivity.
  - destruct ratio; try discriminate. intros _.
    now rewrite fmul_nan_r.
Qed.

Lemma galaxy_derived_fields_witness :
  fle (Fin 0) (a example_galaxy) = true /\
  fle (Fin 0) (b example_galaxy) = true /\
  fle (b example_galaxy) (a example_galaxy) = true.
Proof.
  apply (galaxy_derived_fields "ESO245-005" (Fin 3.5) example_center
           (Fin 120) (Fin (1 / 2)) (Fin 0)).
  - apply fle_fin. lra.
  - apply flt_fin. lra.
  - apply fle_fin. lra.
Defined.

(** C7, as stated, fails: a NaN ratio does not make [a] NaN. *)
Lemma galaxy_derived_fields_counterexample :
  isnan (ratio galaxy_nan_ratio) = true /\
  a galaxy_nan_ratio = Fin (60 / 60) /\
  isnan (a galaxy_nan_ratio) = false.
Proof.
  assert (Ha : a galaxy_nan_ratio = Fin (60 / 60)) by (apply fdiv_fin; lra).
  rewrite Ha. repeat split.
Qed.

(** ** Searching the catalogue *)

Lemma intercepts_items_hit (before after : dict Galaxy) (key : string)
    (g : Galaxy) (ra dec : f64) :
  Forall (fun item => contains_point (snd item) ra dec = false) before ->
  contains_point g ra dec = true ->
  intercepts_items (before ++ (key, g) :: after) ra dec = (true, Some g).
Proof.
  intros Hbefore Hg.
  induction Hbefore as [| [k0 g0] rest Hhead _ IH]; cbn [app intercepts_items].
  - now rewrite Hg.
  - cbn [snd] in Hhead. now rewrite Hhead.
Qed.

Lemma intercepts_items_miss (items : dict Galaxy) (ra dec : f64) :
  Forall (fun item => contains_point (snd item) ra dec = false) items ->
  intercepts_items items ra dec = (false, None).
Proof.
  induction 1 as [| [k0 g0] rest Hhead _ IH]; cbn [intercepts_items].
  - reflexivity.
  - cbn [snd] in Hhead. now rewrite Hhead.
Qed.

(** Every answer of the scan is of one of the two kinds. *)
Lemma intercepts_items_inv (items : dict Galaxy) (ra dec : f64) :
  (exists before key g after,
      items = before ++ (key, g) :: after /\
      Forall (fun item => contains_point (snd item) ra dec = false) before /\
      contains_point g ra dec = true /\
      intercepts_items items ra dec = (true, Some g)) \/
  (Forall (fun item => contains_point (snd item) ra dec = false) items /\
   intercepts_items items ra dec = (false, None)).
Proof.
  induction items as [| [k0 g0] rest IH]; cbn [intercepts_items].
  - right. split; [constructor | reflexivity].
  - destruct (contains_point g0 ra dec) eqn:Hg0.
    + left. exists [], k0, g0, rest. repeat split; [constructor | assumption].
    + destruct IH as [(before & key & g & after & Heq & Hb & Hg & Hres) | [Hall Hres]].
      * left. exists ((k0, g0) :: before), key, g, after. subst rest.
        split; [reflexivity |].
        split; [constructor; assumption |].
        split; assumption.
      * right. split; [constructor; assumption | assumption].
Qed.

(** Assigning a new key puts its item after all the others. *)
Lemma dict_setitem_new {V : Type} (d : dict V) (k : string) (v : V) :
  dict_get d k = None -> dict_setitem d k v = d ++ [(k, v)].
Proof.
  induction d as [| [k0 v0] rest IH]; cbn [dict_get dict_setitem app];
    [reflexivity |].
  destruct (String.eqb k k0); [discriminate |].
  intro Hnone. now rewrite IH.
Qed.

(** C3. [intercepts_galaxy] answers [(true, g)] for the first galaxy, in
    iteration order, that contains the point, and [(false, None)] when no
    galaxy does; of two galaxies that both contain the point, the one that
    stands earlier in the mapping is returned. *)
Theorem intercepts_galaxy_first_match (lv : LocalVolume) (ra dec : f64) :
  (forall before key g after,
      galaxies lv = before ++ (key, g) :: after ->
      Forall (fun item => contains_point (snd item) ra dec = false) before ->
      contains_point g ra dec = true ->
      intercepts_galaxy lv ra dec = (true, Some g)) /\
  (Forall (fun item => contains_point (snd item) ra dec = false) (galaxies lv) ->
   intercepts_galaxy lv ra dec = (false, None)) /\
  (forall g, intercepts_galaxy lv ra dec = (true, Some g) ->
      exists before key after,
        galaxies lv = before ++ (key, g) :: after /\
        Forall (fun item => contains_point (snd item) ra dec = false) before /\
        contains_point g ra dec = true) /\
  (intercepts_galaxy lv ra dec = (false, None) ->
   Forall (fun item => contains_point (snd item) ra dec = false) (galaxies lv)) /\
  (forall before k1 g1 middle k2 g2 after,
      galaxies lv = before ++ (k1, g1) :: middle ++ (k2, g2) :: after ->
      Forall (fun item => contains_point (snd item) ra dec = false) before ->
      contains_point g1 ra dec = true ->
      contains_point g2 ra dec = true ->
      intercepts_galaxy lv ra dec = (true, Some g1)).
Proof.
  unfold intercepts_galaxy.
  split; [| split; [| split; [| split]]].
  - intros before key g after Heq Hbefore Hg. rewrite Heq.
    now apply intercepts_items_hit.
  - apply intercepts_items_miss.
  - intros g Hres.
    destruct (intercepts_items_inv (galaxies lv) ra dec)
      as [(before & key & g' & after & Heq & Hb & Hg & Hres') | [_ Hres']];
      rewrite Hres' in Hres; [| discriminate].
    injection Hres as <-. now exists before, key, after.
  - intros Hres.
    destruct (intercepts_items_inv (galaxies lv) ra dec)
      as [(before & key & g' & after & Heq & Hb & Hg & Hres') | [Hall _]];
      [| assumption].
    rewrite Hres' in Hres. discriminate.
  - intros before k1 g1 middle k2 g2 after Heq Hbefore Hg1 _. rewrite Heq.
    now apply intercepts_items_hit.
Qed.


Lemma example_galaxy_wide_a : a example_galaxy_wide = Fin (240 / 60).
Proof. apply fdiv_fin; lra. Qed.

Lemma example_galaxy_wide_b : b example_galaxy_wide = Fin (240 / 60 * (1 / 2)).
Proof.
  change (b example_galaxy_wide) with (fmul (a example_galaxy_wide) (Fin (1 / 2))).
  now rewrite example_galaxy_wide_a.
Qed.

(** Half a degree east of the common centre: inside both sample galaxies. *)
Lemma example_point_in_both :
  contains_point example_galaxy (Fin (21 / 2)) (Fin 20) = true /\
  contains_point example_galaxy_wide (Fin (21 / 2)) (Fin 20) = true.
Proof.
  split.
  - apply (contains_point_real example_galaxy 10 20 0
             (120 / 60) (120 / 60 * (1 / 2)) (21 / 2) 20);
      try reflexivity; try lra.
    + exact example_galaxy_a.
    + exact example_galaxy_b.
    + unfold ellipse_r. rewrite rotation_zero_cos, rotation_zero_sin.
      simpl. lra.
  - apply (contains_point_real example_galaxy_wide 10 20 0
             (240 / 60) (240 / 60 * (1 / 2)) (21 / 2) 20);
      try reflexivity; try lra.
    + exact example_galaxy_wide_a.
    + exact example_galaxy_wide_b.
    + unfold ellipse_r. rewrite rotation_zero_cos, rotation_zero_sin.
      simpl. lra.
Qed.

(** The sample catalogue, filled in file order, searched at a point that
    both of its galaxies contain: the first one is returned. *)
Lemma intercepts_galaxy_first_match_witness :
  galaxies example_volume
  = dict_setitem (dict_setitem [] "ESO245-005" example_galaxy)
                 "NGC0625" example_galaxy_wide /\
  intercepts_galaxy example_volume (Fin (21 / 2)) (Fin 20)
  = (true, Some example_galaxy).
Proof.
  split; [reflexivity |].
  destruct example_point_in_both as [H1 H2].
  apply (proj2 (proj2 (proj2 (proj2
           (intercepts_galaxy_first_match example_volume (Fin (21 / 2)) (Fin 20)))))
           [] "ESO245-005"%string example_galaxy
           [] "NGC0625"%string example_galaxy_wide []).
  - reflexivity.
  - constructor.
  - exact H1.
  - exact H2.
Defined.

(** ** Sky coverage *)

Lemma fadd_0_r (x : f64) : fadd x (Fin 0) = x.
Proof. now rewrite fadd_comm, fadd_0_l. Qed.

Lemma fold_add_area (items : dict Galaxy) (acc : f64) :
  fold_left add_area items acc = fadd acc (spec_area_sum items).
Proof.
  revert acc.
  induction items as [| [key g] rest IH]; intro acc; cbn [fold_left].
  - unfold spec_area_sum, counted_areas. cbn. now rewrite fadd_0_r.
  - rewrite IH. unfold add_area, spec_area_sum, counted_areas.
    cbn [map filter snd].
    destruct (isnan (area g)); cbn [negb fold_right]; [reflexivity |].
    now rewrite fadd_assoc.
Qed.

Lemma total_area_of_sum (items : dict Galaxy) :
  total_area_of items = spec_area_sum items.
Proof. unfold total_area_of. now rewrite fold_add_area, fadd_0_l. Qed.









(** ** Access by name *)

Lemma dict_get_absent {V : Type} (d : dict V) (k : string) :
  ~ In k (dict_keys d) -> dict_get d k = None.
Proof.
  induction d as [| [k0 v0] rest IH]; cbn [dict_keys map fst In dict_get];
    intro Habsent; [reflexivity |].
  destruct (String.eqb_spec k k0) as [-> | Hne].
  - exfalso. apply Habsent. now left.
  - apply IH. intro Hin. apply Habsent. now right.
Qed.

Lemma dict_get_present {V : Type} (d : dict V) (k : string) :
  In k (dict_keys d) -> exists v, dict_get d k = Some v /\ In (k, v) d.
Proof.
  induction d as [| [k0 v0] rest IH]; cbn [dict_keys map fst In dict_get];
    intro Hin; [contradiction |].
  destruct (String.eqb_spec k k0) as [-> | Hne].
  - exists v0. split; [reflexivity | now left].
  - destruct Hin as [Heq | Hin]; [congruence |].
    destruct (IH Hin) as (v & Hget & Hmem).
    exists v. split; [assumption | now right].
Qed.

(** C9. Asking for a name that is not a key of the mapping raises
    [AttributeError]: the answer is never a galaxy.  A name that is a key
    gives the galaxy stored under it. *)
Theorem getattr_unknown_name (lv : LocalVolume) (key : string) :
  (~ In key (dict_keys (galaxies lv)) ->
   (exists msg, getattr lv key = Raise (AttributeError msg)) /\
   (forall g, getattr lv key <> Ok g)) /\
  (In key (dict_keys (galaxies lv)) ->
   exists g, getattr lv key = Ok g /\ In (key, g) (galaxies lv)).
Proof.
  unfold getattr, dict_contains, dict_getitem, super_getattr. split.
  - intro Habsent. rewrite (dict_get_absent _ _ Habsent).
    split; [eexists; reflexivity | intros g Hg; discriminate].
  - intro Hin. destruct (dict_get_present _ _ Hin) as (g & Hget & Hmem).
    rewrite Hget. now exists g.
Qed.

Lemma getattr_unknown_name_witness :
  (exists msg, getattr example_volume "M31" = Raise (AttributeError msg)) /\
  (forall g, getattr example_volume "M31" <> Ok g).
Proof.
  apply (proj1 (getattr_unknown_name example_volume "M31")).
  cbn. intros [H | [H | H]]; try discriminate H; exact H.
Defined.

(** ** The coordinate token *)

Section Strings.
Local Open Scope string_scope.

Lemma str_in_app (c : ascii) (s t : string) :
  str_in c (s ++ t) = str_in c s || str_in c t.
Proof.
  induction s as [| c0 s IH]; cbn [append str_in]; [reflexivity |].
  now destruct (Ascii.eqb c0 c).
Qed.

Lemma str_split_whole (c : ascii) (s : string) :
  str_in c s = false -> str_split c s = [s].
Proof.
  induction s as [| c0 s IH]; cbn [str_in str_split]; [reflexivity |].
  destruct (Ascii.eqb c0 c); [discriminate |].
  intro Hs. now rewrite (IH Hs).
Qed.

Lemma str_split_at (c : ascii) (s t : string) :
  str_in c s = false ->
  str_split c (s ++ String c t) = s :: str_split c t.
Proof.
  induction s as [| c0 s IH]; cbn [append str_in str_split].
  - now rewrite Ascii.eqb_refl.
  - destruct (Ascii.eqb c0 c); [discriminate |].
    intro Hs. now rewrite (IH Hs).
Qed.

(** A token with exactly one sign character splits into its two sides. *)
Lemma str_split_token (c : ascii) (ra dec : string) :
  str_in c ra = false -> str_in c dec = false ->
  str_split c (ra ++ String c dec) = [ra; dec].
Proof.
  intros Hra Hdec. now rewrite str_split_at, str_split_whole.
Qed.
End Strings.

Local Open Scope string_scope.

Lemma parse_skycoord_token (astropy_angles : string -> result (f64 * f64))
    (sign : ascii) (ra dec : string) (distance : f64) :
  sign = "+"%char \/ sign = "-"%char ->
  str_in "+" ra = false -> str_in "-" ra = false ->
  str_in "+" dec = false -> str_in "-" dec = false ->
  parse_skycoord astropy_angles (ra ++ String sign dec) distance
  = (angles <- astropy_angles
                 (ra_string_of ra ++ String " " (dec_str_of sign dec)) ;;
     Ok (mkSkyCoord (ra_string_of ra ++ String " " (dec_str_of sign dec))
                    distance ICRS (hourangle, deg) (fst angles) (snd angles))).
Proof.
  intros Hsign Hra_p Hra_m Hdec_p Hdec_m. unfold parse_skycoord.
  rewrite str_in_app. cbn [str_in]. rewrite Hra_p, Hdec_p. cbn [orb].
  destruct Hsign as [-> | ->]; cbn [Ascii.eqb Bool.eqb].
  - now rewrite str_split_token.
  - now rewrite str_split_token.
Qed.

(** C5. The token is cut at its sign character: what stands before it is
    the right-ascension token and what stands after it the declination
    token; the first becomes hours, minutes, seconds with the marks [h],
    [min], [s], the second the sign, two digits, a point and the remaining
    digits.  The token 014813-300327 with distance 3.5 gives the text
    01h48min13s -30.0327, the distance 3.5, the ICRS frame and the units
    hour angle and degree. *)
Theorem parse_skycoord_splice (astropy_angles : string -> result (f64 * f64)) :
  (forall (sign : ascii) (ra dec : string) (distance : f64),
      sign = "+"%char \/ sign = "-"%char ->
      str_in "+" ra = false -> str_in "-" ra = false ->
      str_in "+" dec = false -> str_in "-" dec = false ->
      parse_skycoord astropy_angles (ra ++ String sign dec) distance
      = (angles <- astropy_angles
                     (ra_string_of ra ++ String " " (dec_str_of sign dec)) ;;
         Ok (mkSkyCoord (ra_string_of ra ++ String " " (dec_str_of sign dec))
                        distance ICRS (hourangle, deg)
                        (fst angles) (snd angles)))) /\
  (forall (h1 h2 m1 m2 : ascii) (seconds : string),
      ra_string_of (String h1 (String h2 (String m1 (String m2 seconds))))
      = String h1 (String h2 "h") ++ String m1 (String m2 "min")
        ++ seconds ++ "s") /\
  (forall (sign d1 d2 : ascii) (minutes : string),
      dec_str_of sign (String d1 (String d2 minutes))
      = String sign (String d1 (String d2 (String "." minutes)))) /\
  str_split "-" "014813-300327" = ["014813"%string; "300327"%string] /\
  ra_string_of "014813" = "01h48min13s"%string /\
  dec_str_of "-" "300327" = "-30.0327"%string /\
  parse_skycoord astropy_angles "014813-300327" (Fin 3.5)
  = (angles <- astropy_angles "01h48min13s -30.0327" ;;
     Ok (mkSkyCoord "01h48min13s -30.0327" (Fin 3.5) ICRS (hourangle, deg)
                    (fst angles) (snd angles))).
Proof.
  split; [| repeat split].
  exact (parse_skycoord_token astropy_angles).
Qed.

Lemma parse_skycoord_splice_witness :
  parse_skycoord (fun _ => Ok (Fin (1831 / 120), Fin (75 + 27 / 100)))
                 "003644+7527" (Fin (7 / 10))
  = Ok (mkSkyCoord "00h36min44s +75.27" (Fin (7 / 10)) ICRS (hourangle, deg)
                   (Fin (1831 / 120)) (Fin (75 + 27 / 100))).
Proof.
  apply (proj1 (parse_skycoord_splice
                  (fun _ => Ok (Fin (1831 / 120), Fin (75 + 27 / 100))))
           "+"%char "003644"%string "7527"%string (Fin (7 / 10)));
    [left |..]; reflexivity.
Defined.

(** Without a sign character there is nothing to unpack. *)
Lemma parse_skycoord_no_sign (astropy_angles : string -> result (f64 * f64))
    (x : string) (distance : f64) :
  str_in "+" x = false -> str_in "-" x = false ->
  parse_skycoord astropy_angles x distance
  = Raise (ValueError "not enough values to unpack (expected 2, got 1)").
Proof.
  intros Hp Hm. unfold parse_skycoord. rewrite Hp.
  now rewrite (str_split_whole _ _ Hm).
Qed.

Local Close Scope string_scope.

(** ** Orientation sampling *)

Section SamplingFacts.
Context {rng : Type} `{RandomState rng}.

Lemma np_random_uniform_range (st : rng) :
  unit_draws rng ->
  exists r, fst (np_random_uniform (Fin 0) (Fin 360) st) = Fin r /\
            0 <= r < 360.
Proof.
  intro Hunit. unfold np_random_uniform.
  specialize (Hunit st). destruct (random_sample st) as [u st'].
  cbn [fst] in *. exists (0 + (360 - 0) * u). split; [reflexivity | lra].
Qed.

(** The loop gives the items their draws in order and keeps the keys. *)
Lemma sample_items_table (items : dict Galaxy) (st : rng) :
  map (fun item => (fst item, angle (snd item))) (fst (sample_items items st))
  = combine (dict_keys items) (uniform_draws (List.length items) st).
Proof.
  revert st.
  induction items as [| [key g] rest IH]; intro st;
    cbn [sample_items uniform_draws List.length dict_keys map fst combine];
    [reflexivity |].
  destruct (np_random_uniform (Fin 0) (Fin 360) st) as [v st1].
  specialize (IH st1). destruct (sample_items rest st1) as [rest' st2].
  cbn [fst snd map combine angle set_angle] in *.
  now rewrite IH.
Qed.

(** The state after the loop depends on the number of items only. *)
Lemma sample_items_state (items1 items2 : dict Galaxy) (st : rng) :
  List.length items1 = List.length items2 ->
  snd (sample_items items1 st) = snd (sample_items items2 st).
Proof.
  revert items2 st.
  induction items1 as [| [k1 g1] rest1 IH]; intros [| [k2 g2] rest2] st Hlen;
    try discriminate; cbn [sample_items]; [reflexivity |].
  destruct (np_random_uniform (Fin 0) (Fin 360) st) as [v st1].
  injection Hlen as Hlen. specialize (IH rest2 st1 Hlen).
  destruct (sample_items rest1 st1), (sample_items rest2 st1). exact IH.
Qed.

(** Only the angle of a galaxy changes. *)
Lemma sample_items_fields (items : dict Galaxy) (st : rng) :
  Forall2 (fun old new =>
             fst new = fst old /\
             exists v, snd new = set_angle (snd old) v)
          items (fst (sample_items items st)).
Proof.
  revert st.
  induction items as [| [key g] rest IH]; intro st; cbn [sample_items];
    [constructor |].
  destruct (np_random_uniform (Fin 0) (Fin 360) st) as [v st1].
  specialize (IH st1). destruct (sample_items rest st1) as [rest' st2].
  constructor; [| exact IH].
  split; [reflexivity | now exists v].
Qed.

Lemma uniform_draws_range (n : nat) (st : rng) :
  unit_draws rng ->
  Forall (fun v => exists r, v = Fin r /\ 0 <= r < 360) (uniform_draws n st).
Proof.
  intro Hunit. revert st.
  induction n as [| n IH]; intro st; cbn [uniform_draws]; [constructor |].
  destruct (np_random_uniform_range st Hunit) as (r & Hr & Hrange).
  destruct (np_random_uniform (Fin 0) (Fin 360) st) as [v st1].
  cbn [fst] in Hr. constructor; [now exists r | apply IH].
Qed.

Lemma sample_angles_ok (seed : option Z) (lv : LocalVolume) (st st0 : rng) :
  seed_if_given seed st = Ok st0 ->
  sample_angles seed lv st
  = Ok (mkLocalVolume (fst (sample_items (galaxies lv) st0)),
        snd (sample_items (galaxies lv) st0)).
Proof.
  intro Hseed. unfold sample_angles. rewrite Hseed. cbn [bind].
  now destruct (sample_items (galaxies lv) st0).
Qed.

Lemma sample_angles_raise (seed : option Z) (lv : LocalVolume) (st : rng)
    (e : exn) :
  seed_if_given seed st = Raise e -> sample_angles seed lv st = Raise e.
Proof. intro Hseed. unfold sample_angles. now rewrite Hseed. Qed.

Lemma seed_if_given_valid (n : Z) (st : rng) :
  (0 < n < 2 ^ 32)%Z ->
  seed_if_given (Some n) st = Ok (seeded_state (Z.to_N n)).
Proof.
  intros [Hlo Hhi]. unfold seed_if_given, np_random_seed.
  destruct (Z.eqb_spec n 0) as [-> | _]; [inversion Hlo |].
  destruct (Z.leb_spec 0 n) as [_ | Hneg];
    [| exfalso; apply (Z.lt_irrefl n), (Z.lt_trans _ 0); assumption].
  destruct (Z.ltb_spec n (2 ^ 32)) as [_ | Hbig]; [reflexivity |].
  exfalso. apply (Z.lt_irrefl n), (Z.lt_le_trans _ (2 ^ 32)); assumption.
Qed.

Lemma seed_if_given_invalid (n : Z) (st : rng) :
  (n < 0 \/ 2 ^ 32 <= n)%Z ->
  seed_if_given (Some n) st
  = Raise (ValueError "Seed must be between 0 and 2**32 - 1").
Proof.
  intro Hout. unfold seed_if_given, np_random_seed.
  destruct (Z.eqb_spec n 0) as [-> | _].
  - exfalso. destruct Hout as [Hneg | Hbig]; [inversion Hneg |].
    now apply Hbig.
  - destruct (Z.leb_spec 0 n) as [Hpos | _]; [| reflexivity].
    destruct (Z.ltb_spec n (2 ^ 32)) as [Hsmall | _]; [| reflexivity].
    exfalso. destruct Hout as [Hneg | Hbig].
    + apply (Z.lt_irrefl n), (Z.lt_le_trans _ 0); assumption.
    + apply (Z.lt_irrefl n), (Z.lt_le_trans _ (2 ^ 32)); assumption.
Qed.

Lemma angle_table_items (lv : LocalVolume) (st : rng) :
  angle_table (mkLocalVolume (fst (sample_items (galaxies lv) st)))
  = combine (dict_keys (galaxies lv))
            (uniform_draws (List.length (galaxies lv)) st).
Proof. unfold angle_table. cbn [galaxies]. apply sample_items_table. Qed.

Lemma combine_range (keys : list string) (draws : list f64) :
  Forall (fun v => exists r, v = Fin r /\ 0 <= r < 360) draws ->
  Forall (fun entry : string * f64 => exists r, snd entry = Fin r /\ 0 <= r < 360)
         (combine keys draws).
Proof.
  revert draws.
  induction keys as [| k keys IH]; intros [| v draws] Hdraws;
    cbn [combine]; try constructor.
  - inversion Hdraws; subst. assumption.
  - apply IH. now inversion Hdraws.
Qed.

(** C6, as amended.  With a seed that is not falsy and that NumPy accepts
    (1 to 2**32 - 1), [sample_angles] seeds the generator and then gives
    the galaxies, in iteration order, the successive draws of
    [np.random.uniform(0, 360)], each a real of [0, 360), whatever the
    generator held before; two catalogues with the same names in the same
    order receive the same angle under each name and leave the generator
    in the same state.  Any other seed that is not falsy raises
    [ValueError], and no angle is assigned. *)
Theorem sample_angles_seeded (n : Z) (lv1 lv2 : LocalVolume) (st1 st2 : rng) :
  n <> 0%Z ->
  unit_draws rng ->
  dict_keys (galaxies lv1) = dict_keys (galaxies lv2) ->
  ((0 < n < 2 ^ 32)%Z ->
   exists (lv1' lv2' : LocalVolume) (st' : rng),
     sample_angles (Some n) lv1 st1 = Ok (lv1', st') /\
     sample_angles (Some n) lv2 st2 = Ok (lv2', st') /\
     angle_table lv1'
     = combine (dict_keys (galaxies lv1))
               (uniform_draws (List.length (galaxies lv1))
                              (seeded_state (Z.to_N n))) /\
     Forall (fun entry => exists r, snd entry = Fin r /\ 0 <= r < 360)
            (angle_table lv1') /\
     angle_table lv1' = angle_table lv2') /\
  ((n < 0 \/ 2 ^ 32 <= n)%Z ->
   sample_angles (Some n) lv1 st1
   = Raise (ValueError "Seed must be between 0 and 2**32 - 1")).
Proof.
  intros Hn Hunit Hkeys.
  assert (Hlen : List.length (galaxies lv1) = List.length (galaxies lv2)).
  { unfold dict_keys in Hkeys.
    now rewrite <- (List.length_map fst (galaxies lv1)), Hkeys, List.length_map. }
  split.
  - intro Hvalid. set (st0 := seeded_state (Z.to_N n)).
    exists (mkLocalVolume (fst (sample_items (galaxies lv1) st0))),
           (mkLocalVolume (fst (sample_items (galaxies lv2) st0))),
           (snd (sample_items (galaxies lv1) st0)).
    split; [apply sample_angles_ok, seed_if_given_valid, Hvalid |].
    split.
    { rewrite (sample_items_state (galaxies lv1) (galaxies lv2) st0 Hlen).
      apply sample_angles_ok, seed_if_given_valid, Hvalid. }
    rewrite !angle_table_items.
    split; [reflexivity | split].
    + apply combine_range, uniform_draws_range, Hunit.
    + now rewrite Hkeys, Hlen.
  - intro Hout. apply sample_angles_raise, seed_if_given_invalid, Hout.
Qed.
End SamplingFacts.

Lemma lcg_unit_draws : unit_draws Z.
Proof.
  intro st. cbn [random_sample lcg_state fst].
  assert (Hmod : (0 <= st mod lcg_modulus < lcg_modulus)%Z)
    by (apply Z.mod_pos_bound; reflexivity).
  destruct Hmod as [Hlo Hhi].
  apply IZR_le in Hlo. apply IZR_lt in Hhi.
  unfold lcg_modulus in *.
  split.
  - apply Rmult_le_pos; [exact Hlo |]. apply Rlt_le, Rinv_0_lt_compat. lra.
  - apply (Rmult_lt_reg_r 2147483648); [lra |].
    unfold Rdiv. rewrite Rmult_assoc, Rinv_l by lra. lra.
Qed.

(** The sample catalogue seeded with 42 from two different generator
    states: the same angles under the same names. *)
Lemma sample_angles_seeded_witness :
  exists (lv1' lv2' : LocalVolume) (st' : Z),
    sample_angles (Some 42%Z) example_volume 0%Z = Ok (lv1', st') /\
    sample_angles (Some 42%Z) example_volume 7%Z = Ok (lv2', st') /\
    angle_table lv1' = angle_table lv2'.
Proof.
  destruct (proj1 (sample_angles_seeded 42%Z example_volume example_volume
                     0%Z 7%Z ltac:(discriminate) lcg_unit_draws eq_refl))
    as (lv1' & lv2' & st' & H1 & H2 & _ & _ & Heq).
  - split; reflexivity.
  - exists lv1', lv2', st'. repeat split; assumption.
Defined.

(** C6, as stated, fails: the seed 2**32 is not falsy, and [sample_angles]
    raises instead of assigning angles. *)
Lemma sample_angles_seeded_counterexample :
  sample_angles (Some 4294967296%Z) example_volume 0%Z
  = Raise (ValueError "Seed must be between 0 and 2**32 - 1").
Proof. reflexivity. Qed.

(** ** Loading the catalogue *)

(** Two rows, the second with a missing radius, read with an astropy that
    answers the same angles for every text: the galaxies stand in file
    order, and the second has neither axes nor area. *)
Lemma from_lv_catalog_sample :
  let astropy := fun _ : string => Ok (Fin 10, Fin 20) in
  let table := [mkRow "ESO245-005" "014813-300327" (Fin 120) (Fin (1 / 2)) (Fin 3.5);
                mkRow "KK16" "015520+2757" NaN (Fin (1 / 2)) (Fin 3.5)] in
  exists g1 g2,
    from_lv_catalog astropy table
    = Ok (mkLocalVolume [("ESO245-005"%string, g1); ("KK16"%string, g2)]) /\
    g1 = example_galaxy /\
    a g2 = NaN /\ b g2 = NaN /\ area g2 = NaN /\
    sc_text (center g2) = "01h55min20s +27.57"%string.
Proof.
  cbv zeta. eexists. eexists. split; [reflexivity |].
  repeat split.
Qed.

(** ** What a hit implies *)

Lemma signed_inf_not_fin (c : comparison) (r : R) : signed_inf c <> Fin r.
Proof. destruct c; discriminate. Qed.

Lemma fmul_fin_inv (x y : f64) (r : R) :
  fmul x y = Fin r -> isfinite x = true /\ isfinite y = true.
Proof.
  destruct x as [p | | |], y as [q | | |]; cbn [fmul isfinite]; intro Hxy;
    try discriminate; try (now split);
    exfalso; exact (signed_inf_not_fin _ _ Hxy).
Qed.

Lemma fsub_fin_inv (x y : f64) (r : R) :
  fsub x y = Fin r -> isfinite x = true /\ isfinite y = true.
Proof.
  destruct x as [p | | |], y as [q | | |]; cbn [fsub isfinite]; intro Hxy;
    try discriminate; now split.
Qed.

Lemma np_cos_fin_inv (t : f64) (r : R) : np_cos t = Fin r -> isfinite t = true.
Proof. destruct t; cbn; intro Ht; try discriminate; reflexivity. Qed.

Lemma isfinite_fin (x : f64) : isfinite x = true -> exists r, x = Fin r.
Proof. destruct x as [r | | |]; try discriminate. intros _. now exists r. Qed.

(** A square is a non-negative real, plus infinity or NaN. *)
Lemma fpow2_cases (x : f64) :
  (exists r, x = Fin r /\ fpow2 x = Fin (r * r)) \/
  (isfinite x = false /\ (fpow2 x = PInf \/ fpow2 x = NaN)).
Proof.
  destruct x as [r | | |]; unfold fpow2; cbn [fmul isfinite].
  - left. now exists r.
  - right. split; [reflexivity | now left].
  - right. split; [reflexivity | now left].
  - right. split; [reflexivity | now right].
Qed.

(** One term of the normalised radius is never minus infinity, and it is
    finite only for a finite numerator and an axis that is neither NaN nor
    zero. *)
Lemma radius_term (u axis : f64) :
  fdiv (fpow2 u) (fpow2 (fdiv axis (Fin 2))) <> NInf /\
  (forall r, fdiv (fpow2 u) (fpow2 (fdiv axis (Fin 2))) = Fin r ->
             isfinite u = true /\ axis <> NaN /\ axis <> Fin 0).
Proof.
  assert (H2 : Rsign 2 = Gt) by (apply Rsign_pos; lra).
  destruct (fpow2_cases u) as [(p & -> & ->) | [Hu [-> | ->]]];
    destruct axis as [q | | |]; cbn [fdiv fpow2 fmul isfinite];
    rewrite ?H2; cbn [fdiv fpow2 fmul isfinite signed_inf];
    try (split; [discriminate | intros r Hr; discriminate Hr]).
  - destruct (Rsign_cases (q / 2 * (q / 2))) as [[Hq E] | [[Hq E] | [Hq E]]];
      rewrite E.
    + exfalso. nra.
    + destruct (Rsign_cases (p * p)) as [[Hp E'] | [[Hp E'] | [Hp E']]];
        rewrite E'; cbn [signed_inf].
      * exfalso. nra.
      * split; [discriminate | intros r Hr; discriminate Hr].
      * split; [discriminate | intros r Hr; discriminate Hr].
    + split; [discriminate |]. intros r _.
      repeat split; try discriminate.
      intro Hq0. injection Hq0 as ->. lra.
  - split; [discriminate |]. intros r _. repeat split; discriminate.
  - split; [discriminate |]. intros r _. repeat split; discriminate.
  - destruct (Rsign_cases (q / 2 * (q / 2))) as [[Hq E] | [[Hq E] | [Hq E]]];
      rewrite E; [exfalso; nra | |];
      (split; [discriminate | intros r Hr; discriminate Hr]).
Qed.

(** An answer true needs a finite first rotated coordinate and two proper
    axes. *)
Lemma hit_terms (g : Galaxy) (ra dec : f64) :
  contains_point g ra dec = true ->
  isfinite (fst (spec_rotate (spec_rotation_angle g) (spec_offsets g ra dec)))
  = true /\
  a g <> NaN /\ a g <> Fin 0 /\ b g <> NaN /\ b g <> Fin 0.
Proof.
  rewrite contains_point_unfold. unfold spec_r_norm.
  set (p := spec_rotate (spec_rotation_angle g) (spec_offsets g ra dec)).
  destruct (radius_term (fst p) (a g)) as [Ha_inf Ha].
  destruct (radius_term (snd p) (b g)) as [Hb_inf Hb].
  destruct (fdiv (fpow2 (fst p)) (fpow2 (fdiv (a g) (Fin 2)))) as [ta | | |] eqn:Eta;
    destruct (fdiv (fpow2 (snd p)) (fpow2 (fdiv (b g) (Fin 2)))) as [tb | | |] eqn:Etb;
    cbn [fadd fle]; intro Hle; try discriminate; try congruence.
  destruct (Ha ta eq_refl) as (Hxt & Ha1 & Ha2).
  destruct (Hb tb eq_refl) as (_ & Hb1 & Hb2).
  repeat split; assumption.
Qed.

(** A finite rotated coordinate comes from finite offsets and a finite
    position angle only. *)
Lemma rotated_finite (g : Galaxy) (ra dec : f64) :
  isfinite (fst (spec_rotate (spec_rotation_angle g) (spec_offsets g ra dec)))
  = true ->
  isfinite ra = true /\ isfinite dec = true /\
  isfinite (ra_deg (center g)) = true /\
  isfinite (dec_deg (center g)) = true /\
  isfinite (angle g) = true.
Proof.
  unfold spec_rotate, spec_offsets, spec_rotation_angle. cbn [fst snd].
  intro Hxt.
  destruct (isfinite_fin _ Hxt) as (xt & Hxt').
  destruct (fsub_fin_inv _ _ _ Hxt') as [Hxc Hys].
  destruct (isfinite_fin _ Hxc) as (xc & Hxc').
  destruct (isfinite_fin _ Hys) as (ys & Hys').
  destruct (fmul_fin_inv _ _ _ Hxc') as [Hx Hc].
  destruct (fmul_fin_inv _ _ _ Hys') as [Hy _].
  destruct (isfinite_fin _ Hx) as (x & Hx').
  destruct (isfinite_fin _ Hy) as (y & Hy').
  destruct (isfinite_fin _ Hc) as (c & Hc').
  destruct (fsub_fin_inv _ _ _ Hx') as [Hra Hcra].
  destruct (fsub_fin_inv _ _ _ Hy') as [Hdec Hcdec].
  pose proof (np_cos_fin_inv _ _ Hc') as Harg.
  destruct (isfinite_fin _ Harg) as (t & Ht).
  destruct (fsub_fin_inv _ _ _ Ht) as [_ Hrad].
  destruct (isfinite_fin _ Hrad) as (rad & Hrad').
  destruct (fmul_fin_inv _ _ _ Hrad') as [Hang _].
  repeat split; assumption.
Qed.

(** X1. An answer true of [contains_point] implies that the query point,
    the centre and the position angle are finite and that neither axis is
    NaN or zero: no hit is ever reported on degenerate data. *)
Theorem contains_point_true_inv (g : Galaxy) (ra dec : f64) :
  contains_point g ra dec = true ->
  isfinite ra = true /\ isfinite dec = true /\
  isfinite (ra_deg (center g)) = true /\
  isfinite (dec_deg (center g)) = true /\
  isfinite (angle g) = true /\
  a g <> NaN /\ a g <> Fin 0 /\ b g <> NaN /\ b g <> Fin 0.
Proof.
  intro Hhit.
  destruct (hit_terms g ra dec Hhit) as (Hxt & Ha1 & Ha2 & Hb1 & Hb2).
  destruct (rotated_finite g ra dec Hxt)
    as (Hra & Hdec & Hcra & Hcdec & Hang).
  repeat split; assumption.
Qed.

Lemma contains_point_true_inv_witness :
  isfinite (angle example_galaxy) = true /\ a example_galaxy <> Fin 0.
Proof.
  destruct (contains_point_true_inv example_galaxy (Fin (21 / 2)) (Fin 20))
    as (_ & _ & _ & _ & Hang & _ & Ha & _).
  - exact (proj1 example_point_in_both).
  - split; assumption.
Defined.



(** ** Symmetry about the centre *)

Lemma fmul_fneg_l (x y : f64) : fmul (fneg x) y = fneg (fmul x y).
Proof.
  destruct x as [r | | |], y as [s | | |]; simpl;
    rewrite ?Rsign_opp, ?signed_inf_opp; try reflexivity.
  - f_equal; ring.
  - now destruct (Rsign s).
Qed.

(** X6. The test is symmetric about the centre: a finite point and its
    mirror image through a finite centre get the same verdict, for any
    axes and any position angle. *)
Theorem contains_point_mirror (g : Galaxy) (cra cdec ra dec : R) :
  ra_deg (center g) = Fin cra ->
  dec_deg (center g) = Fin cdec ->
  contains_point g (Fin (2 * cra - ra)) (Fin (2 * cdec - dec))
  = contains_point g (Fin ra) (Fin dec).
Proof.
  intros Hra Hdec. rewrite !contains_point_unfold. f_equal.
  unfold spec_r_norm, spec_rotate, spec_offsets. rewrite Hra, Hdec.
  cbn [fsub fst snd].
  replace (2 * cra - ra - cra) with (- (ra - cra)) by ring.
  replace (2 * cdec - dec - cdec) with (- (dec - cdec)) by ring.
  change (Fin (- (ra - cra))) with (fneg (Fin (ra - cra))).
  change (Fin (- (dec - cdec))) with (fneg (Fin (dec - cdec))).
  now rewrite !fmul_fneg_l, fsub_fneg, fadd_fneg, !fpow2_fneg.
Qed.

Lemma contains_point_mirror_witness :
  contains_point example_galaxy (Fin (2 * 10 - 11)) (Fin (2 * 20 - 20))
  = contains_point example_galaxy (Fin 11) (Fin 20).
Proof.
  apply (contains_point_mirror example_galaxy 10 20 11 20); reflexivity.
Defined.

(** ** More on orientation sampling *)

Lemma set_angle_set_angle (g : Galaxy) (v w : f64) :
  set_angle (set_angle g v) w = set_angle g w.
Proof. reflexivity. Qed.

Lemma set_angle_same (g : Galaxy) : set_angle g (angle g) = g.
Proof. now destruct g. Qed.

Section MoreSampling.
Context {rng : Type} `{RandomState rng}.

Lemma sample_items_keys (items : dict Galaxy) (st : rng) :
  dict_keys (fst (sample_items items st)) = dict_keys items.
Proof.
  revert st.
  induction items as [| [key g] rest IH]; intro st; cbn [sample_items];
    [reflexivity |].
  destruct (np_random_uniform (Fin 0) (Fin 360) st) as [v st1].
  specialize (IH st1). destruct (sample_items rest st1) as [rest' st2].
  cbn [fst dict_keys map] in *. unfold dict_keys in IH. now rewrite IH.
Qed.

Lemma sample_items_areas (items : dict Galaxy) (st : rng) :
  map (fun item => area (snd item)) (fst (sample_items items st))
  = map (fun item => area (snd item)) items.
Proof.
  revert st.
  induction items as [| [key g] rest IH]; intro st; cbn [sample_items];
    [reflexivity |].
  destruct (np_random_uniform (Fin 0) (Fin 360) st) as [v st1].
  specialize (IH st1). destruct (sample_items rest st1) as [rest' st2].
  cbn [fst snd map area set_angle] in *. now rewrite IH.
Qed.

(** The items after sampling depend on the keys and on the galaxies up to
    their angles only. *)
Lemma sample_items_forget (items items' : dict Galaxy) (st : rng) :
  Forall2 (fun old new =>
             fst new = fst old /\ exists v, snd new = set_angle (snd old) v)
          items items' ->
  sample_items items' st = sample_items items st.
Proof.
  intro Hrel. revert st.
  induction Hrel as [| [k g] [k' g'] rest rest' [Hk [v Hg]] _ IH]; intro st;
    cbn [sample_items]; [reflexivity |].
  cbn [fst snd] in Hk, Hg. subst k' g'.
  destruct (np_random_uniform (Fin 0) (Fin 360) st) as [w st1].
  now rewrite IH, set_angle_set_angle.
Qed.

Lemma sample_items_final_state (items : dict Galaxy) (st : rng) :
  snd (sample_items items st) = draws_state (List.length items) st.
Proof.
  revert st.
  induction items as [| [key g] rest IH]; intro st;
    cbn [sample_items draws_state List.length]; [reflexivity |].
  destruct (np_random_uniform (Fin 0) (Fin 360) st) as [v st1].
  specialize (IH st1). destruct (sample_items rest st1) as [rest' st2].
  exact IH.
Qed.

Lemma sample_items_length (items : dict Galaxy) (st : rng) :
  List.length (fst (sample_items items st)) = List.length items.
Proof.
  rewrite <- (List.length_map fst (fst (sample_items items st))).
  fold (dict_keys (fst (sample_items items st))).
  rewrite sample_items_keys. apply List.length_map.
Qed.

(** X9. [sample_angles] touches nothing but the position angles: the
    names and their order are kept, putting the old angle back gives the
    old galaxy, and the sky coverage is what it was. *)
Theorem sample_angles_only_angles (seed : option Z) (lv lv' : LocalVolume)
    (st st' : rng) :
  sample_angles seed lv st = Ok (lv', st') ->
  dict_keys (galaxies lv') = dict_keys (galaxies lv) /\
  Forall2 (fun old new =>
             fst new = fst old /\
             set_angle (snd new) (angle (snd old)) = snd old)
          (galaxies lv) (galaxies lv') /\
  percentage_sky_cover lv' = percentage_sky_cover lv.
Proof.
  unfold sample_angles.
  destruct (seed_if_given seed st) as [st0 | e]; cbn [bind]; [| discriminate].
  pose proof (sample_items_keys (galaxies lv) st0) as Hkeys.
  pose proof (sample_items_fields (galaxies lv) st0) as Hf.
  pose proof (sample_items_areas (galaxies lv) st0) as Har.
  destruct (sample_items (galaxies lv) st0) as [items st1].
  intro Hok. injection Hok as <- <-.
  cbn [fst galaxies] in *.
  split; [exact Hkeys | split].
  - clear Hkeys Har.
    induction Hf as [| old new rest rest' [Hk [v Hg]] _ IH]; constructor;
      [| exact IH].
    split; [exact Hk |].
    rewrite Hg, set_angle_set_angle. apply set_angle_same.
  - unfold percentage_sky_cover. cbn [galaxies].
    rewrite !total_area_of_sum. unfold spec_area_sum, counted_areas.
    now rewrite Har.
Qed.

(** X10. Without a seed, and likewise with the seed 0, [sample_angles]
    goes on from the generator as it stands: the angles are its next
    draws, it is left after as many draws as there are galaxies, and a
    second call receives the draws that follow those of the first. *)
Theorem sample_angles_unseeded (lv : LocalVolume) (st : rng) :
  let n := List.length (galaxies lv) in
  exists (lv1 lv2 : LocalVolume) (st2 : rng),
    sample_angles None lv st = Ok (lv1, draws_state n st) /\
    sample_angles (Some 0%Z) lv st = Ok (lv1, draws_state n st) /\
    angle_table lv1
    = combine (dict_keys (galaxies lv)) (uniform_draws n st) /\
    sample_angles None lv1 (draws_state n st) = Ok (lv2, st2) /\
    angle_table lv2
    = combine (dict_keys (galaxies lv)) (uniform_draws n (draws_state n st)).
Proof.
  cbv zeta.
  exists (mkLocalVolume (fst (sample_items (galaxies lv) st))).
  exists (mkLocalVolume
            (fst (sample_items (fst (sample_items (galaxies lv) st))
                               (draws_state (List.length (galaxies lv)) st)))).
  exists (snd (sample_items (fst (sample_items (galaxies lv) st))
                            (draws_state (List.length (galaxies lv)) st))).
  rewrite <- sample_items_final_state.
  split; [now apply sample_angles_ok |].
  split; [now apply sample_angles_ok |].
  split; [apply angle_table_items |].
  split; [now apply sample_angles_ok |].
  unfold angle_table. cbn [galaxies].
  now rewrite sample_items_table, sample_items_keys, sample_items_length.
Qed.

(** X11. With a seed that is not falsy and that NumPy accepts, sampling
    again reproduces the catalogue and the generator state of the first
    sampling exactly, whatever was sampled in between and whatever the
    generator holds. *)
Theorem sample_angles_repeat (n : Z) (seed' : option Z)
    (lv lv_mid : LocalVolume) (st st1 st_mid st2 : rng) :
  (0 < n < 2 ^ 32)%Z ->
  sample_angles seed' lv st1 = Ok (lv_mid, st_mid) ->
  exists (lv' : LocalVolume) (st' : rng),
    sample_angles (Some n) lv st = Ok (lv', st') /\
    sample_angles (Some n) lv_mid st2 = Ok (lv', st').
Proof.
  intros Hn Hmid. set (st0 := seeded_state (Z.to_N n)).
  exists (mkLocalVolume (fst (sample_items (galaxies lv) st0))),
         (snd (sample_items (galaxies lv) st0)).
  split; [apply sample_angles_ok, seed_if_given_valid, Hn |].
  rewrite (sample_angles_ok (Some n) lv_mid st2 st0)
    by apply seed_if_given_valid, Hn.
  rewrite (sample_items_forget (galaxies lv)); [reflexivity |].
  unfold sample_angles in Hmid.
  destruct (seed_if_given seed' st1) as [s | e]; cbn [bind] in Hmid;
    [| discriminate].
  pose proof (sample_items_fields (galaxies lv) s) as Hf.
  destruct (sample_items (galaxies lv) s). injection Hmid as <- _.
  exact Hf.
Qed.
End MoreSampling.

Lemma sample_angles_only_angles_witness :
  dict_keys (fst (sample_items (galaxies example_volume) (seeded_state 42%N)))
  = dict_keys (galaxies example_volume) /\
  percentage_sky_cover
    (mkLocalVolume (fst (sample_items (galaxies example_volume)
                                      (seeded_state 42%N))))
  = percentage_sky_cover example_volume.
Proof.
  destruct (sample_angles_only_angles (Some 42%Z) example_volume
              (mkLocalVolume (fst (sample_items (galaxies example_volume)
                                                (seeded_state 42%N))))
              0%Z (snd (sample_items (galaxies example_volume)
                                     (seeded_state 42%N))))
    as (Hkeys & _ & Hcover).
  - apply (sample_angles_ok (Some 42%Z) example_volume 0%Z (seeded_state 42%N)).
    reflexivity.
  - split; assumption.
Defined.

Lemma sample_angles_repeat_witness :
  exists (lv' : LocalVolume) (st' : Z),
    sample_angles (Some 42%Z) example_volume 0%Z = Ok (lv', st') /\
    sample_angles (Some 42%Z)
      (mkLocalVolume (fst (sample_items (galaxies example_volume) 5%Z))) 9%Z
    = Ok (lv', st').
Proof.
  apply (sample_angles_repeat 42%Z None example_volume _ 0%Z 5%Z
           (snd (sample_items (galaxies example_volume) 5%Z)) 9%Z).
  - split; reflexivity.
  - now apply sample_angles_ok.
Defined.

(** ** More on loading the catalogue *)

Lemma dict_get_setitem_same {V : Type} (d : dict V) (k : string) (v : V) :
  dict_get (dict_setitem d k v) k = Some v.
Proof.
  induction d as [| [k0 v0] rest IH]; cbn [dict_setitem dict_get].
  - now rewrite String.eqb_refl.
  - destruct (String.eqb k k0) eqn:Hk; cbn [dict_get]; now rewrite Hk.
Qed.

Lemma dict_get_setitem_other {V : Type} (d : dict V) (k k' : string) (v : V) :
  k' <> k -> dict_get (dict_setitem d k v) k' = dict_get d k'.
Proof.
  intro Hne.
  induction d as [| [k0 v0] rest IH]; cbn [dict_setitem dict_get].
  - destruct (String.eqb_spec k' k); [contradiction | reflexivity].
  - destruct (String.eqb_spec k k0) as [-> | Hk0]; cbn [dict_get].
    + destruct (String.eqb_spec k' k0); [contradiction | reflexivity].
    + now rewrite IH.
Qed.

Lemma dict_get_some_key {V : Type} (d : dict V) (k : string) (v : V) :
  dict_get d k = Some v -> In k (dict_keys d).
Proof.
  induction d as [| [k0 v0] rest IH]; cbn [dict_get dict_keys map fst In];
    [discriminate |].
  destruct (String.eqb_spec k k0) as [-> | Hne]; [now left |].
  intro Hget. right. now apply IH.
Qed.

(** Assigning keeps the keys where they are and adds a new one at the end. *)
Lemma dict_keys_setitem {V : Type} (d : dict V) (k : string) (v : V) :
  dict_keys (dict_setitem d k v)
  = if dict_contains d k then dict_keys d else dict_keys d ++ [k].
Proof.
  unfold dict_contains.
  induction d as [| [k0 v0] rest IH]; cbn [dict_setitem dict_get dict_keys map fst app];
    [reflexivity |].
  destruct (String.eqb_spec k k0) as [-> | Hne]; [reflexivity |].
  cbn [map fst]. unfold dict_keys in IH. rewrite IH.
  now destruct (dict_get rest k).
Qed.

Lemma dict_setitem_keys_in {V : Type} (d : dict V) (k k' : string) (v : V) :
  In k' (dict_keys (dict_setitem d k v)) <-> k' = k \/ In k' (dict_keys d).
Proof.
  rewrite dict_keys_setitem. unfold dict_contains.
  destruct (dict_get d k) as [v0 |] eqn:Hget.
  - split; [now right | intros [-> | Hin]; [| assumption]].
    now apply dict_get_some_key in Hget.
  - rewrite in_app_iff. cbn [In]. split.
    + intros [Hin | [<- | []]]; [now right | now left].
    + intros [-> | Hin]; [right; now left | now left].
Qed.

Lemma dict_setitem_nodup {V : Type} (d : dict V) (k : string) (v : V) :
  NoDup (dict_keys d) -> NoDup (dict_keys (dict_setitem d k v)).
Proof.
  intro Hnd. rewrite dict_keys_setitem. unfold dict_contains.
  destruct (dict_get d k) as [v0 |] eqn:Hget; [assumption |].
  assert (Habsent : ~ In k (dict_keys d)).
  { intro Hin. destruct (dict_get_present d k Hin) as (w & Hw & _). congruence. }
  apply NoDup_app; [assumption | repeat constructor; intros [] |].
  intros k' Hin [<- | []]. contradiction.
Qed.

Lemma dict_setitem_forall {V : Type} (P : string * V -> Prop) (d : dict V)
    (k : string) (v : V) :
  Forall P d -> P (k, v) -> Forall P (dict_setitem d k v).
Proof.
  intros Hd Hkv.
  induction Hd as [| [k0 v0] rest H0 Hrest IH]; cbn [dict_setitem].
  - now constructor.
  - destruct (String.eqb_spec k k0) as [-> | Hne]; constructor; assumption.
Qed.

Section MoreCatalogue.
Variable astropy_angles : string -> result (f64 * f64).

Lemma load_rows_app (t1 t2 : list Row) (output : dict Galaxy) :
  load_rows astropy_angles (t1 ++ t2) output
  = (d <- load_rows astropy_angles t1 output ;; load_rows astropy_angles t2 d).
Proof.
  revert output.
  induction t1 as [| row rest IH]; intro output; cbn [app load_rows bind];
    [reflexivity |].
  destruct (parse_skycoord astropy_angles (row_skycoord row) (row_distance row)) as [sk | e]; cbn [bind]; [apply IH | reflexivity].
Qed.

Lemma load_rows_step (row : Row) (rest : list Row) (output : dict Galaxy)
    (sk : SkyCoord) :
  parse_skycoord astropy_angles (row_skycoord row) (row_distance row) = Ok sk ->
  load_rows astropy_angles (row :: rest) output
  = load_rows astropy_angles rest
      (dict_setitem output (row_name row) (galaxy_of_row row sk)).
Proof. intro Hsk. cbn [load_rows]. now rewrite Hsk. Qed.

Lemma load_rows_fresh (table : list Row) (sks : list SkyCoord)
    (output : dict Galaxy) :
  Forall2 (fun row sk => parse_skycoord astropy_angles (row_skycoord row) (row_distance row) = Ok sk) table sks ->
  NoDup (map row_name table) ->
  (forall row, In row table -> ~ In (row_name row) (dict_keys output)) ->
  load_rows astropy_angles table output
  = Ok (output ++ map (fun p => (row_name (fst p), galaxy_of_row (fst p) (snd p)))
                      (combine table sks)).
Proof.
  intro Hparse. revert output.
  induction Hparse as [| row sk table sks Hsk _ IH]; intros output Hnd Hfresh.
  - cbn. now rewrite app_nil_r.
  - rewrite (load_rows_step _ _ _ _ Hsk).
    rewrite dict_setitem_new
      by (apply dict_get_absent, Hfresh; now left).
    cbn [map] in Hnd. inversion Hnd as [| ? ? Hhead Htail]; subst.
    rewrite IH; [| assumption |].
    + cbn [combine map fst snd]. now rewrite <- app_assoc.
    + intros r Hr. unfold dict_keys. rewrite map_app, in_app_iff.
      cbn [map fst In]. intros [Hin | [Heq | []]].
      * apply (Hfresh r); [now right | exact Hin].
      * apply Hhead. rewrite Heq. now apply in_map.
Qed.

(** X12. When every row parses and no name occurs twice, the catalogue
    holds one galaxy per row, in file order, each under the name of its
    row and built from the fields of that row. *)
Theorem from_lv_catalog_file_order (table : list Row) (sks : list SkyCoord) :
  Forall2 (fun row sk => parse_skycoord astropy_angles (row_skycoord row) (row_distance row) = Ok sk) table sks ->
  NoDup (map row_name table) ->
  from_lv_catalog astropy_angles table
  = Ok (mkLocalVolume
          (map (fun p => (row_name (fst p), galaxy_of_row (fst p) (snd p)))
               (combine table sks))).
Proof.
  intros Hparse Hnd. unfold from_lv_catalog.
  rewrite (load_rows_fresh table sks []); [reflexivity | assumption.. |].
  intros row _ [].
Qed.

Lemma load_rows_error (before : list Row) (row : Row) (after : list Row)
    (output : dict Galaxy) (e : exn) :
  Forall (fun r => exists sk, parse_skycoord astropy_angles (row_skycoord r) (row_distance r) = Ok sk) before ->
  parse_skycoord astropy_angles (row_skycoord row) (row_distance row) = Raise e ->
  load_rows astropy_angles (before ++ row :: after) output = Raise e.
Proof.
  intros Hbefore Hrow. revert output.
  induction Hbefore as [| r rest [sk Hsk] _ IH]; intro output; cbn [app].
  - cbn [load_rows]. now rewrite Hrow.
  - rewrite (load_rows_step _ _ _ _ Hsk). apply IH.
Qed.

(** X13. Loading is all or nothing: the error of the first row whose
    coordinate does not parse is the result, whatever rows come before or
    after it. *)
Theorem from_lv_catalog_first_error (before : list Row) (row : Row)
    (after : list Row) (e : exn) :
  Forall (fun r => exists sk, parse_skycoord astropy_angles (row_skycoord r) (row_distance r) = Ok sk) before ->
  parse_skycoord astropy_angles (row_skycoord row) (row_distance row) = Raise e ->
  from_lv_catalog astropy_angles (before ++ row :: after) = Raise e.
Proof.
  intros Hbefore Hrow. unfold from_lv_catalog.
  now rewrite (load_rows_error before row after [] e).
Qed.

Lemma load_rows_inv (all : list Row) (table : list Row)
    (output loaded : dict Galaxy) :
  (forall row, In row table -> In row all) ->
  load_rows astropy_angles table output = Ok loaded ->
  NoDup (dict_keys output) ->
  Forall (from_table astropy_angles all) output ->
  NoDup (dict_keys loaded) /\
  (forall k, In k (dict_keys loaded) <->
             In k (dict_keys output) \/ In k (map row_name table)) /\
  Forall (from_table astropy_angles all) loaded.
Proof.
  revert output.
  induction table as [| row rest IH]; intros output Hsub Hload Hnd Hfrom.
  - cbn [load_rows] in Hload. injection Hload as <-.
    split; [assumption | split; [| assumption]].
    intro k. cbn [map In]. tauto.
  - destruct (parse_skycoord astropy_angles (row_skycoord row) (row_distance row)) as [sk | e] eqn:Hsk.
    + rewrite (load_rows_step _ _ _ _ Hsk) in Hload.
      apply IH in Hload.
      * destruct Hload as (Hnd' & Hkeys & Hfrom').
        split; [assumption | split; [| assumption]].
        intro k. rewrite Hkeys, dict_setitem_keys_in. cbn [map In].
        intuition congruence.
      * intros r Hr. apply Hsub. now right.
      * now apply dict_setitem_nodup.
      * apply dict_setitem_forall; [assumption |].
        exists row, sk. cbn [fst snd].
        repeat split; [apply Hsub; now left | assumption].
    + cbn [load_rows] in Hload. rewrite Hsk in Hload. discriminate.
Qed.

(** X14. In every catalogue that loads, the names are pairwise distinct
    and are exactly the names of the rows, and every galaxy is the one
    built from a row of the table that parses and bears its name: its key
    is its [name], its angle is 0 and its centre carries its distance. *)
Theorem from_lv_catalog_invariant (table : list Row) (lv : LocalVolume) :
  from_lv_catalog astropy_angles table = Ok lv ->
  NoDup (dict_keys (galaxies lv)) /\
  (forall k, In k (dict_keys (galaxies lv)) <-> In k (map row_name table)) /\
  Forall (fun item =>
            (exists row sk,
                In row table /\ parse_skycoord astropy_angles (row_skycoord row) (row_distance row) = Ok sk /\
                fst item = row_name row /\ snd item = galaxy_of_row row sk) /\
            name (snd item) = fst item /\
            angle (snd item) = Fin 0 /\
            sc_distance_Mpc (center (snd item)) = distance (snd item))
         (galaxies lv).
Proof.
  unfold from_lv_catalog. intro Hload.
  destruct (load_rows astropy_angles table []) as [loaded | e] eqn:Hrows;
    cbn [bind] in Hload; [| discriminate].
  injection Hload as <-. cbn [galaxies].
  destruct (load_rows_inv table table [] loaded (fun _ Hin => Hin) Hrows
              (NoDup_nil _) (Forall_nil _)) as (Hnd & Hkeys & Hfrom).
  split; [assumption | split].
  - intro k. rewrite Hkeys. cbn [dict_keys map In]. tauto.
  - eapply Forall_impl; [| exact Hfrom].
    intros item (row & sk & Hin & Hsk & Hkey & Hg).
    split; [now exists row, sk |].
    rewrite Hg, Hkey. cbn [galaxy_of_row post_init name angle center distance].
    repeat split.
    unfold parse_skycoord in Hsk.
    destruct (str_split _ _) as [| ra [| dec [| ? ?]]]; try discriminate.
    destruct (astropy_angles _); cbn [bind] in Hsk; [| discriminate].
    now injection Hsk as <-.
Qed.

Lemma load_rows_get_other (table : list Row) (output loaded : dict Galaxy)
    (k : string) :
  load_rows astropy_angles table output = Ok loaded ->
  Forall (fun r => row_name r <> k) table ->
  dict_get loaded k = dict_get output k.
Proof.
  revert output.
  induction table as [| row rest IH]; intros output Hload Hother.
  - cbn [load_rows] in Hload. now injection Hload as <-.
  - inversion Hother as [| ? ? Hrow Hrest]; subst.
    destruct (parse_skycoord astropy_angles (row_skycoord row) (row_distance row)) as [sk | e] eqn:Hsk.
    + rewrite (load_rows_step _ _ _ _ Hsk) in Hload.
      rewrite (IH _ Hload Hrest).
      apply dict_get_setitem_other. congruence.
    + cbn [load_rows] in Hload. rewrite Hsk in Hload. discriminate.
Qed.

(** X15. When a name occurs in several rows, the galaxy found under that
    name in the loaded catalogue is the one of the last such row. *)
Theorem from_lv_catalog_last_row_wins (before : list Row) (row : Row)
    (after : list Row) (sk : SkyCoord) (lv : LocalVolume) :
  from_lv_catalog astropy_angles (before ++ row :: after) = Ok lv ->
  parse_skycoord astropy_angles (row_skycoord row) (row_distance row) = Ok sk ->
  Forall (fun r => row_name r <> row_name row) after ->
  getattr lv (row_name row) = Ok (galaxy_of_row row sk).
Proof.
  unfold from_lv_catalog. intros Hload Hsk Hafter.
  rewrite load_rows_app in Hload.
  destruct (load_rows astropy_angles before []) as [d1 | e] eqn:H1;
    cbn [bind] in Hload; [| discriminate].
  rewrite (load_rows_step _ _ _ _ Hsk) in Hload.
  destruct (load_rows astropy_angles after _) as [d2 | e] eqn:H2;
    cbn [bind] in Hload; [| discriminate].
  injection Hload as <-.
  pose proof (load_rows_get_other _ _ _ _ H2 Hafter) as Hget.
  rewrite dict_get_setitem_same in Hget.
  unfold getattr, dict_contains, dict_getitem. cbn [galaxies].
  now rewrite Hget.
Qed.
End MoreCatalogue.

Lemma from_lv_catalog_file_order_witness :
  from_lv_catalog astropy_fixed [row_first; row_second]
  = Ok (mkLocalVolume
          [("ESO245-005"%string, galaxy_of_row row_first example_center);
           ("KK16"%string, galaxy_of_row row_second center_second)]).
Proof.
  apply (from_lv_catalog_file_order astropy_fixed [row_first; row_second]
           [example_center; center_second]).
  - repeat constructor.
  - apply NoDup_cons; [cbn; intros [Heq | []]; discriminate Heq |].
    apply NoDup_cons; [intros [] | apply NoDup_nil].
Defined.

Lemma from_lv_catalog_first_error_witness :
  from_lv_catalog astropy_fixed [row_first; row_unsigned; row_second]
  = Raise (ValueError "not enough values to unpack (expected 2, got 1)").
Proof.
  apply (from_lv_catalog_first_error astropy_fixed
           [row_first] row_unsigned [row_second]).
  - constructor; [| constructor]. now exists example_center.
  - reflexivity.
Defined.

Lemma from_lv_catalog_invariant_witness :
  NoDup (dict_keys (galaxies volume_reloaded)) /\
  forall k, In k (dict_keys (galaxies volume_reloaded)) <->
            In k (map row_name [row_first; row_second; row_again]).
Proof.
  destruct (from_lv_catalog_invariant astropy_fixed
              [row_first; row_second; row_again] volume_reloaded)
    as (Hnd & Hkeys & _).
  - reflexivity.
  - split; assumption.
Defined.

Lemma from_lv_catalog_last_row_wins_witness :
  getattr volume_reloaded "ESO245-005"
  = Ok (galaxy_of_row row_again center_again).
Proof.
  apply (from_lv_catalog_last_row_wins astropy_fixed
           [row_first; row_second] row_again [] center_again volume_reloaded).
  - reflexivity.
  - reflexivity.
  - constructor.
Defined.

(** ** More on the coordinate token *)

Section MoreStrings.
Local Open Scope string_scope.

Lemma str_in_count (c : ascii) (s : string) :
  str_in c s = false <-> str_count c s = O.
Proof.
  induction s as [| c0 s IH]; cbn [str_in str_count]; [tauto |].
  destruct (Ascii.eqb c0 c); [split; discriminate | exact IH].
Qed.

(** A string with at least one [c] is cut at the first one. *)
Lemma str_count_first (c : ascii) (s : string) (n : nat) :
  str_count c s = S n ->
  exists before after,
    s = before ++ String c after /\
    str_in c before = false /\ str_count c after = n.
Proof.
  induction s as [| c0 s IH]; cbn [str_count]; [discriminate |].
  destruct (Ascii.eqb_spec c0 c) as [-> | Hne].
  - intro Hn. injection Hn as Hn. exists "", s. cbn. now split.
  - intro Hn. destruct (IH Hn) as (before & after & -> & Hb & Ha).
    exists (String c0 before), after. cbn [append str_in].
    apply Ascii.eqb_neq in Hne. rewrite Hne. now split.
Qed.

(** With two or more separators there are three or more parts. *)
Lemma str_split_many (c : ascii) (s : string) (n : nat) :
  str_count c s = S (S n) ->
  exists p1 p2 p3 rest, str_split c s = p1 :: p2 :: p3 :: rest.
Proof.
  intro Hn.
  destruct (str_count_first c s (S n) Hn) as (s1 & t1 & -> & Hs1 & Ht1).
  destruct (str_count_first c t1 n Ht1) as (s2 & t2 & -> & Hs2 & _).
  rewrite (str_split_at c s1 _ Hs1), (str_split_at c s2 _ Hs2).
  destruct (str_split c t2) as [| p3 rest] eqn:Hsplit.
  - destruct t2 as [| c0 t2]; cbn [str_split] in Hsplit; [discriminate |].
    destruct (Ascii.eqb c0 c); [discriminate |].
    destruct (str_split c t2); discriminate.
  - now exists s1, s2, p3, rest.
Qed.

Lemma str_take_drop (n : nat) (s : string) : str_take n s ++ str_drop n s = s.
Proof.
  revert s. induction n as [| n IH]; intros [| c s]; cbn [str_take str_drop append];
    try reflexivity.
  now rewrite IH.
Qed.
End MoreStrings.

Local Open Scope string_scope.

(** X16. What [parse_skycoord] does is decided by the number of
    occurrences of its sign ([+] if the token has one, else [-]): none,
    and the unpacking fails for want of values; exactly one, and the two
    sides of it go to astropy, whose answer or error is the result; two
    or more, and the unpacking fails for excess of values.  A coordinate
    is therefore only ever returned for a token with exactly one sign, and
    it carries the distance given, the ICRS frame and the units hour angle
    and degree. *)
Theorem parse_skycoord_by_sign_count
    (astropy_angles : string -> result (f64 * f64))
    (x : string) (distance : f64) :
  let sign := chosen_sign x in
  (str_count sign x = 0%nat ->
   parse_skycoord astropy_angles x distance
   = Raise (ValueError "not enough values to unpack (expected 2, got 1)")) /\
  (str_count sign x = 1%nat ->
   exists ra dec,
     x = ra ++ String sign dec /\
     str_in sign ra = false /\ str_in sign dec = false /\
     parse_skycoord astropy_angles x distance
     = (angles <- astropy_angles
                    (ra_string_of ra ++ String " " (dec_str_of sign dec)) ;;
        Ok (mkSkyCoord (ra_string_of ra ++ String " " (dec_str_of sign dec))
                       distance ICRS (hourangle, deg)
                       (fst angles) (snd angles)))) /\
  ((2 <= str_count sign x)%nat ->
   parse_skycoord astropy_angles x distance
   = Raise (ValueError "too many values to unpack (expected 2)")) /\
  (forall sk,
      parse_skycoord astropy_angles x distance = Ok sk ->
      str_count sign x = 1%nat /\
      sc_distance_Mpc sk = distance /\ sc_frame sk = ICRS /\
      sc_unit sk = (hourangle, deg)).
Proof.
  intro sign.
  assert (Hzero : str_count sign x = 0%nat ->
                  parse_skycoord astropy_angles x distance
                  = Raise (ValueError "not enough values to unpack (expected 2, got 1)")).
  { intro Hc. unfold parse_skycoord. fold (chosen_sign x). fold sign.
    apply str_in_count in Hc. now rewrite (str_split_whole _ _ Hc). }
  assert (Hmany : (2 <= str_count sign x)%nat ->
                  parse_skycoord astropy_angles x distance
                  = Raise (ValueError "too many values to unpack (expected 2)")).
  { intro Hc. unfold parse_skycoord. fold (chosen_sign x). fold sign.
    destruct (str_count sign x) as [| [| n]] eqn:Hn;
      [inversion Hc | inversion Hc as [| ? Hc']; inversion Hc' |].
    destruct (str_split_many sign x n Hn) as (p1 & p2 & p3 & rest & ->).
    reflexivity. }
  assert (Hone : str_count sign x = 1%nat ->
                 exists ra dec,
                   x = ra ++ String sign dec /\
                   str_in sign ra = false /\ str_in sign dec = false /\
                   parse_skycoord astropy_angles x distance
                   = (angles <- astropy_angles
                                  (ra_string_of ra ++ String " " (dec_str_of sign dec)) ;;
                      Ok (mkSkyCoord (ra_string_of ra ++ String " " (dec_str_of sign dec))
                                     distance ICRS (hourangle, deg)
                                     (fst angles) (snd angles)))).
  { intro Hc.
    destruct (str_count_first sign x 0 Hc) as (ra & dec & Hx & Hra & Hdec).
    apply str_in_count in Hdec.
    exists ra, dec. repeat split; try assumption.
    unfold parse_skycoord. fold (chosen_sign x). fold sign.
    rewrite Hx at 1. now rewrite (str_split_token _ _ _ Hra Hdec). }
  split; [exact Hzero | split; [exact Hone | split; [exact Hmany |]]].
  intros sk Hsk.
  destruct (str_count sign x) as [| [| n]] eqn:Hn.
  - rewrite Hzero in Hsk by reflexivity. discriminate.
  - split; [reflexivity |].
    destruct (Hone eq_refl) as (ra & dec & _ & _ & _ & Hparse).
    rewrite Hparse in Hsk.
    destruct (astropy_angles _); cbn [bind] in Hsk; [| discriminate].
    injection Hsk as <-. repeat split.
  - rewrite Hmany in Hsk by (apply le_n_S, le_n_S, Nat.le_0_l). discriminate.
Qed.

Lemma parse_skycoord_by_sign_count_witness :
  parse_skycoord astropy_fixed "0148133003" (Fin 1)
  = Raise (ValueError "not enough values to unpack (expected 2, got 1)") /\
  (exists ra dec,
      "015520+2757" = ra ++ String "+" dec /\
      str_in "+" ra = false /\ str_in "+" dec = false /\
      parse_skycoord astropy_fixed "015520+2757" (Fin 1)
      = (angles <- astropy_fixed
                     (ra_string_of ra ++ String " " (dec_str_of "+" dec)) ;;
         Ok (mkSkyCoord (ra_string_of ra ++ String " " (dec_str_of "+" dec))
                        (Fin 1) ICRS (hourangle, deg)
                        (fst angles) (snd angles)))) /\
  parse_skycoord astropy_fixed "01+48+13" (Fin 1)
  = Raise (ValueError "too many values to unpack (expected 2)").
Proof.
  split; [| split].
  - apply (proj1 (parse_skycoord_by_sign_count
                    astropy_fixed "0148133003" (Fin 1))).
    reflexivity.
  - apply (proj1 (proj2 (parse_skycoord_by_sign_count
                           astropy_fixed "015520+2757" (Fin 1)))).
    reflexivity.
  - apply (proj1 (proj2 (proj2
             (parse_skycoord_by_sign_count astropy_fixed "01+48+13" (Fin 1))))).
    cbn. apply le_n.
Defined.

(** X17. The slices taken from the two tokens lose and repeat nothing:
    the three pieces of the right-ascension token, and the two pieces of
    the declination token, put together give the token back, however
    short it is. *)
Theorem token_slices_partition (ra dec : string) :
  str_take 2 ra ++ str_slice 2 4 ra ++ str_drop 4 ra = ra /\
  str_take 2 dec ++ str_drop 2 dec = dec.
Proof.
  split; [| apply str_take_drop].
  unfold str_slice. cbn [Nat.sub].
  replace (str_drop 4 ra) with (str_drop 2 (str_drop 2 ra)).
  - now rewrite !str_take_drop.
  - destruct ra as [| c1 [| c2 [| c3 [| c4 s]]]]; reflexivity.
Qed.

Local Close Scope string_scope.

(** ** Listing the names *)

(** X18. In a catalogue whose galaxies are stored under their own
    [name], as [from_lv_catalog] stores them, [__dir__] lists, after the
    attributes of the class, exactly the names for which [__getattr__]
    returns a galaxy. *)
Theorem dir_lists_galaxies (class_attrs : list string) (lv : LocalVolume) :
  Forall (fun item => name (snd item) = fst item) (galaxies lv) ->
  forall n : string,
    In n (dir class_attrs lv) <->
    In n class_attrs \/ exists g, getattr lv n = Ok g.
Proof.
  intros Hnames n. unfold dir. rewrite in_app_iff.
  assert (Hkeys : map (fun item => name (snd item)) (galaxies lv)
                  = dict_keys (galaxies lv)).
  { unfold dict_keys. apply map_ext_in. intros item Hin.
    rewrite Forall_forall in Hnames. now apply Hnames. }
  rewrite Hkeys.
  assert (Hget : In n (dict_keys (galaxies lv)) <-> exists g, getattr lv n = Ok g).
  { unfold getattr, dict_contains, dict_getitem, super_getattr. split.
    - intro Hin. destruct (dict_get_present _ _ Hin) as (g & Hg & _).
      rewrite Hg. now exists g.
    - intros [g Hg].
      destruct (dict_get (galaxies lv) n) as [g' |] eqn:Hlook; [| discriminate].
      now apply dict_get_some_key in Hlook. }
  now rewrite Hget.
Qed.

Lemma dir_lists_galaxies_witness :
  In "KK16"%string (dir ["display"%string] volume_reloaded) <->
  In "KK16"%string ["display"%string] \/
  exists g, getattr volume_reloaded "KK16" = Ok g.
Proof.
  apply (dir_lists_galaxies ["display"%string] volume_reloaded).
  repeat constructor.
Defined.

(** ** Data files *)

Section Paths.
Local Open Scope string_scope.

Lemma str_endswith_app (c : ascii) (s t : string) :
  t <> "" -> str_endswith c (s ++ t) = str_endswith c t.
Proof.
  intro Ht. induction s as [| c0 s IH]; cbn [append]; [reflexivity |].
  cbn [str_endswith]. rewrite IH.
  destruct (s ++ t) eqn:Hst; [| reflexivity].
  destruct s; [cbn in Hst; contradiction | discriminate].
Qed.

(** The join of [..], a relative directory and a file name. *)
Lemma os_path_join_relative (path filename : string) :
  path <> "" ->
  str_startswith "/" path = false ->
  str_endswith "/" path = false ->
  str_startswith "/" filename = false ->
  os_path_join ".." [path; filename] = "../" ++ path ++ "/" ++ filename.
Proof.
  intros Hne Hstart Hend Hfile.
  unfold os_path_join. cbn [fold_left]. unfold join_step at 2.
  rewrite Hstart. cbn [String.eqb Ascii.eqb Bool.eqb str_endswith orb].
  unfold join_step. rewrite Hfile.
  change (".." ++ "/" ++ path) with ("../" ++ path).
  rewrite (str_endswith_app "/" "../" path Hne), Hend.
  cbn [String.eqb append orb].
  reflexivity.
Qed.

(** An absolute directory makes the leading [..] disappear. *)
Lemma os_path_join_absolute (path filename : string) :
  str_startswith "/" path = true ->
  str_endswith "/" path = false ->
  str_startswith "/" filename = false ->
  os_path_join ".." [path; filename] = path ++ "/" ++ filename.
Proof.
  intros Hstart Hend Hfile.
  unfold os_path_join. cbn [fold_left]. unfold join_step at 2.
  rewrite Hstart. unfold join_step. rewrite Hfile, Hend.
  destruct path as [| c p]; [discriminate |]. reflexivity.
Qed.
End Paths.

Local Open Scope string_scope.

(** X19. [find_data_files] returns one path per file, in the order of the
    walk.  For a directory that is relative and does not end with a
    separator, the path of a file is [../], the directory, a separator and
    the file name. *)
Theorem find_data_files_paths
    (walk : list (string * list string * list string)) :
  List.length (find_data_files walk)
  = fold_right (fun entry n => (List.length (snd entry) + n)%nat) O walk /\
  (Forall (fun entry =>
             fst (fst entry) <> "" /\
             str_startswith "/" (fst (fst entry)) = false /\
             str_endswith "/" (fst (fst entry)) = false /\
             Forall (fun filename => str_startswith "/" filename = false)
                    (snd entry))
          walk ->
   find_data_files walk
   = flat_map (fun entry =>
                 map (fun filename => "../" ++ fst (fst entry) ++ "/" ++ filename)
                     (snd entry))
              walk).
Proof.
  split.
  - induction walk as [| [[path dirs] files] rest IH]; [reflexivity |].
    unfold find_data_files in *. cbn [flat_map fold_right snd].
    now rewrite List.length_app, List.length_map, IH.
  - intro Hrel.
    induction Hrel as [| [[path dirs] files] rest (Hne & Hstart & Hend & Hfiles) _ IH];
      [reflexivity |].
    unfold find_data_files in *. cbn [flat_map fst snd]. rewrite IH. f_equal.
    apply map_ext_in. intros filename Hin.
    rewrite Forall_forall in Hfiles.
    now apply os_path_join_relative; [| | | apply Hfiles].
Qed.

Lemma find_data_files_paths_witness :
  find_data_files [("grb_shader/data", [], ["lv_catalog.txt"])]
  = ["../grb_shader/data/lv_catalog.txt"].
Proof.
  apply (proj2 (find_data_files_paths
                  [("grb_shader/data", [], ["lv_catalog.txt"])])).
  repeat constructor. discriminate.
Defined.

Local Close Scope string_scope.

(** ** Binary64 arithmetic *)

Lemma bin_two : bin_of_Z 2 = S754_finite false 4503599627370496 (-51).
Proof. reflexivity. Qed.

Lemma bin_one : bin_of_Z 1 = S754_finite false 4503599627370496 (-52).
Proof. reflexivity. Qed.

Lemma bin_mul_nan_r (x : binary64) : bin_mul x S754_nan = S754_nan.
Proof. now destruct x. Qed.

(** The sign given to the rounding is the sign of what it returns. *)
Lemma binary_round_aux_sign (s : bool) (m e : Z) (l : location) :
  match binary_round_aux 53 1024 s m e l with
  | S754_zero t | S754_infinity t | S754_finite t _ _ => t = s
  | S754_nan => True
  end.
Proof.
  unfold binary_round_aux.
  destruct (shr_fexp 53 1024 m e l) as [mrs' e'].
  destruct (shr_fexp 53 1024 _ e' loc_Exact) as [mrs'' e''].
  destruct (shr_m mrs''); [reflexivity | | exact I].
  now destruct (Z.leb e'' (1024 - 53)).
Qed.



(** Not negative: a zero, a finite number or an infinity of sign plus, or
    NaN. *)
Lemma square_not_negative (x : binary64) : not_negative (bin_mul x x).
Proof.
  destruct x as [s | s | | s m e]; cbn [bin_mul SFmul not_negative];
    try apply xorb_nilpotent; try exact I.
  unfold bin_mul, SFmul, not_negative.
  pose proof (binary_round_aux_sign (xorb s s) (Z.pos (m * m)) (e + e) loc_Exact)
    as Hsign.
  destruct (binary_round_aux 53 1024 (xorb s s) (Z.pos (m * m)) (e + e) loc_Exact);
    try exact I; rewrite Hsign; apply xorb_nilpotent.
Qed.

Lemma div_not_negative (n d : binary64) :
  not_negative n -> not_negative d -> not_negative (bin_div n d).
Proof.
  destruct n as [s | s | | s m e], d as [t | t | | t k f];
    cbn [not_negative]; intros Hn Hd; subst; try exact I;
    try reflexivity.
  unfold bin_div, SFdiv.
  destruct (SFdiv_core_binary 53 1024 (Z.pos m) e (Z.pos k) f) as [[mz ez] lz].
  pose proof (binary_round_aux_sign (xorb false false) mz ez lz) as Hsign.
  destruct (binary_round_aux 53 1024 (xorb false false) mz ez lz);
    try exact I; exact Hsign.
Qed.

(** A quotient by a zero or a NaN is plus infinity or NaN. *)
Lemma div_by_degenerate (n d : binary64) :
  not_negative n ->
  bin_iszero d = true \/ bin_isnan d = true ->
  not_negative d ->
  bin_div n d = S754_infinity false \/ bin_div n d = S754_nan.
Proof.
  destruct n as [s | s | | s m e], d as [t | t | | t k f];
    cbn [not_negative bin_iszero bin_isnan];
    intros Hn [Hd | Hd] Hpos; subst; try discriminate;
    try (now left); now right.
Qed.

Lemma add_degenerate (t1 t2 : binary64) :
  not_negative t1 -> not_negative t2 ->
  (t1 = S754_infinity false \/ t1 = S754_nan) \/
  (t2 = S754_infinity false \/ t2 = S754_nan) ->
  bin_leb (bin_add t1 t2) (bin_of_Z 1) = false.
Proof.
  rewrite bin_one.
  destruct t1 as [s | s | | s m e], t2 as [t | t | | t k f];
    cbn [not_negative]; intros H1 H2 [[H | H] | [H | H]];
    subst; try discriminate; reflexivity.
Qed.

(** ** The containment test in binary64 *)

Lemma py_pow2_overflow (x : binary64) :
  square_overflows x = true ->
  py_pow2 x = Raise (OverflowError "(34, 'Numerical result out of range')").
Proof.
  unfold square_overflows, py_pow2.
  destruct x as [s | s | | s m e]; try discriminate.
  now destruct (bin_mul (S754_finite s m e) (S754_finite s m e)).
Qed.

Lemma py_pow2_square (x : binary64) :
  square_overflows x = false -> py_pow2 x = Ok (bin_mul x x).
Proof.
  unfold square_overflows, py_pow2.
  destruct x as [s | s | | s m e]; try reflexivity.
  now destruct (bin_mul (S754_finite s m e) (S754_finite s m e)).
Qed.

Lemma contains_point64_unfold `{Libm} (g : Galaxy64) (ra dec : binary64) :
  square_overflows (bin_div (a64 g) (bin_of_Z 2)) = false ->
  square_overflows (bin_div (b64 g) (bin_of_Z 2)) = false ->
  contains_point64 g ra dec
  = Ok (bin_leb (spec_r_norm64 g ra dec) (bin_of_Z 1)).
Proof.
  intros Ha Hb.
  unfold contains_point64, contains_point_rotated, spec_r_norm64,
    spec_rotated64, rotation64, np_pow2.
  rewrite (py_pow2_square _ Ha), (py_pow2_square _ Hb). cbn [bind fst snd].
  now destruct (bin_leb _ _).
Qed.

Lemma contains_point64_raises `{Libm} (g : Galaxy64) (ra dec : binary64) :
  square_overflows (bin_div (a64 g) (bin_of_Z 2)) = true \/
  square_overflows (bin_div (b64 g) (bin_of_Z 2)) = true ->
  contains_point64 g ra dec
  = Raise (OverflowError "(34, 'Numerical result out of range')").
Proof.
  intro Hover. unfold contains_point64, contains_point_rotated.
  destruct (square_overflows (bin_div (a64 g) (bin_of_Z 2))) eqn:Ha.
  - now rewrite (py_pow2_overflow _ Ha).
  - rewrite (py_pow2_square _ Ha). cbn [bind].
    destruct Hover as [Hover | Hover]; [discriminate |].
    now rewrite (py_pow2_overflow _ Hover).
Qed.

(** Half of a zero is a zero and half of NaN is NaN, and so are their
    squares. *)
Lemma half_axis_degenerate (v : binary64) :
  bin_iszero v = true \/ bin_isnan v = true ->
  square_overflows (bin_div v (bin_of_Z 2)) = false /\
  (bin_iszero (bin_mul (bin_div v (bin_of_Z 2)) (bin_div v (bin_of_Z 2))) = true \/
   bin_isnan (bin_mul (bin_div v (bin_of_Z 2)) (bin_div v (bin_of_Z 2))) = true).
Proof.
  rewrite bin_two.
  destruct v as [s | s | | s m e]; cbn [bin_iszero bin_isnan];
    intros [Hv | Hv]; try discriminate; split; try reflexivity;
    [now left | now right].
Qed.

(** With a zero or NaN axis the normalised radius is plus infinity or
    NaN, and the comparison with 1 fails. *)
Lemma degenerate_axis_radius `{Libm} (g : Galaxy64) (ra dec : binary64) :
  bin_iszero (a64 g) = true \/ bin_isnan (a64 g) = true \/
  bin_iszero (b64 g) = true \/ bin_isnan (b64 g) = true ->
  bin_leb (spec_r_norm64 g ra dec) (bin_of_Z 1) = false.
Proof.
  intro Haxis. unfold spec_r_norm64.
  set (p := spec_rotated64 g ra dec).
  set (ha := bin_div (a64 g) (bin_of_Z 2)).
  set (hb := bin_div (b64 g) (bin_of_Z 2)).
  pose proof (square_not_negative (fst p)) as Hx.
  pose proof (square_not_negative (snd p)) as Hy.
  pose proof (square_not_negative ha) as Hda.
  pose proof (square_not_negative hb) as Hdb.
  apply add_degenerate; try (apply div_not_negative; assumption).
  destruct Haxis as [Ha | [Ha | [Hb | Hb]]].
  - left. apply div_by_degenerate; try assumption.
    apply (half_axis_degenerate (a64 g)). now left.
  - left. apply div_by_degenerate; try assumption.
    apply (half_axis_degenerate (a64 g)). now right.
  - right. apply div_by_degenerate; try assumption.
    apply (half_axis_degenerate (b64 g)). now left.
  - right. apply div_by_degenerate; try assumption.
    apply (half_axis_degenerate (b64 g)). now right.
Qed.




(** ** Missing values in binary64 *)

Lemma add_area64_nan (total : binary64) (key : string) (g : Galaxy64) :
  bin_isnan (area64 g) = true -> add_area64 total (key, g) = total.
Proof. intro Hnan. unfold add_area64. cbn [snd]. now rewrite Hnan. Qed.

Lemma total_area64_skip (before after : list (string * Galaxy64))
    (key : string) (g : Galaxy64) :
  bin_isnan (area64 g) = true ->
  total_area64 (before ++ (key, g) :: after) = total_area64 (before ++ after).
Proof.
  intro Hnan. unfold total_area64.
  rewrite !fold_left_app. cbn [fold_left].
  now rewrite add_area64_nan.
Qed.

Lemma post_init64_nan_area (n : string) (d ra_deg dec_deg : binary64)
    (radius ratio angle : binary64) :
  let g := post_init64 n d ra_deg dec_deg radius ratio angle in
  bin_isnan (a64 g) = true \/ bin_isnan (b64 g) = true ->
  bin_isnan (b64 g) = true /\ bin_isnan (area64 g) = true.
Proof.
  cbv zeta. unfold post_init64. cbn [a64 b64 area64]. unfold np_deg2rad64.
  intros [Ha | Hb].
  - destruct (bin_div radius (bin_of_Z 60)); try discriminate.
    split; reflexivity.
  - destruct (bin_mul (bin_div radius (bin_of_Z 60)) ratio); try discriminate.
    split; [reflexivity |].
    change (bin_mul S754_nan (bin_div np_pi64 (bin_of_Z 180))) with S754_nan.
    now rewrite bin_mul_nan_r.
Qed.

Lemma nan_axis_radius `{Libm} (g : Galaxy64) (ra dec : binary64) :
  bin_isnan (a64 g) = true \/ bin_isnan (b64 g) = true ->
  bin_leb (spec_r_norm64 g ra dec) (bin_of_Z 1) = false.
Proof.
  intros [Ha | Hb]; apply degenerate_axis_radius; tauto.
Qed.

Lemma nan_half_no_overflow (v : binary64) :
  bin_isnan v = true -> square_overflows (bin_div v (bin_of_Z 2)) = false.
Proof. intro Hv. apply half_axis_degenerate. now right. Qed.

(** C2, as amended.  A constructed galaxy whose [a] or [b] is NaN has a
    NaN area, never contains a query point, and is passed over by the
    coverage loop, to which it contributes nothing.  [contains_point]
    returns false when [a] is NaN; when only [b] is NaN it returns false
    unless the square of the half major axis is out of range, in which
    case it raises [OverflowError]. *)
Theorem nan_axis_excluded64 `{Libm} (n : string) (d ra_deg dec_deg : binary64)
    (radius ratio angle : binary64) :
  let g := post_init64 n d ra_deg dec_deg radius ratio angle in
  bin_isnan (a64 g) = true \/ bin_isnan (b64 g) = true ->
  (forall ra dec : binary64, contains_point64 g ra dec <> Ok true) /\
  (bin_isnan (a64 g) = true ->
   forall ra dec : binary64, contains_point64 g ra dec = Ok false) /\
  (forall ra dec : binary64,
      contains_point64 g ra dec
      = if square_overflows (bin_div (a64 g) (bin_of_Z 2))
        then Raise (OverflowError "(34, 'Numerical result out of range')")
        else Ok false) /\
  bin_isnan (area64 g) = true /\
  (forall (before after : list (string * Galaxy64)) (key : string),
      total_area64 (before ++ (key, g) :: after)
      = total_area64 (before ++ after) /\
      percentage_sky_cover64 (before ++ (key, g) :: after)
      = percentage_sky_cover64 (before ++ after)) /\
  (forall key : string, total_area64 [(key, g)] = S754_zero false).
Proof.
  intros g Hnan.
  destruct (post_init64_nan_area n d ra_deg dec_deg radius ratio angle Hnan)
    as [Hb Harea]. fold g in Hb, Harea.
  assert (Hverdict : forall ra dec : binary64,
             contains_point64 g ra dec
             = if square_overflows (bin_div (a64 g) (bin_of_Z 2))
               then Raise (OverflowError "(34, 'Numerical result out of range')")
               else Ok false).
  { intros ra dec.
    destruct (square_overflows (bin_div (a64 g) (bin_of_Z 2))) eqn:Ha.
    - apply contains_point64_raises. now left.
    - rewrite (contains_point64_unfold g ra dec Ha (nan_half_no_overflow _ Hb)).
      now rewrite nan_axis_radius by now right. }
  split; [| split; [| split; [exact Hverdict | split; [exact Harea | split]]]].
  - intros ra dec. rewrite Hverdict.
    destruct (square_overflows _); discriminate.
  - intros Ha ra dec. rewrite Hverdict.
    now rewrite (nan_half_no_overflow _ Ha).
  - intros before after key.
    pose proof (total_area64_skip before after key g Harea) as Hskip.
    split; [exact Hskip |].
    unfold percentage_sky_cover64. now rewrite Hskip.
  - intro key. exact (total_area64_skip [] [] key g Harea).
Qed.

Lemma nan_axis_excluded64_witness :
  (forall ra dec : binary64, contains_point64 galaxy64_nan ra dec = Ok false) /\
  total_area64 [("KK16"%string, galaxy64_nan)] = S754_zero false.
Proof.
  destruct (nan_axis_excluded64 "KK16" (bin_of_Z 3) (bin_of_Z 10) (bin_of_Z 20)
              S754_nan (S754_finite false 4503599627370496 (-53)) (bin_of_Z 0))
    as (_ & Hfalse & _ & _ & _ & Htotal).
  - left. reflexivity.
  - split; [apply Hfalse; reflexivity | exact (Htotal "KK16"%string)].
Defined.

(** C2, as stated, fails: with radius 1e201 arcmin and a missing ratio,
    [b] and the area are NaN and the test raises instead of returning
    false. *)
Lemma nan_axis_excluded64_counterexample :
  bin_isnan (b64 galaxy64_huge_nan) = true /\
  bin_isnan (area64 galaxy64_huge_nan) = true /\
  contains_point64 galaxy64_huge_nan (bin_of_Z 10) (bin_of_Z 20)
  = Raise (OverflowError "(34, 'Numerical result out of range')").
Proof. vm_compute. repeat split. Qed.

(** ** The centre of an ellipse in binary64 *)

Lemma bin_sub_diag (c : binary64) :
  bin_isfinite c = true -> bin_sub c c = S754_zero false.
Proof.
  destruct c as [s | s | | s m e]; cbn [bin_isfinite]; intro Hc;
    try discriminate.
  - now destruct s.
  - unfold bin_sub, SFsub. now rewrite Z.sub_diag.
Qed.

Lemma bin_mul_zero_l (s : bool) (c : binary64) :
  bin_isfinite c = true -> bin_iszero (bin_mul (S754_zero s) c) = true.
Proof. destruct c; cbn; intro Hc; try discriminate; reflexivity. Qed.

Lemma bin_sub_zeros (p q : binary64) :
  bin_iszero p = true -> bin_iszero q = true ->
  bin_iszero (bin_sub p q) = true.
Proof.
  destruct p as [s | | |], q as [t | | |]; cbn [bin_iszero]; intros Hp Hq;
    try discriminate. now destruct s, t.
Qed.

Lemma bin_add_zeros (p q : binary64) :
  bin_iszero p = true -> bin_iszero q = true ->
  bin_iszero (bin_add p q) = true.
Proof.
  destruct p as [s | | |], q as [t | | |]; cbn [bin_iszero]; intros Hp Hq;
    try discriminate. now destruct s, t.
Qed.

Lemma np_pow2_zero (v : binary64) :
  bin_iszero v = true -> np_pow2 v = S754_zero false.
Proof.
  destruct v as [s | | |]; cbn [bin_iszero]; intro Hv; try discriminate.
  now destruct s.
Qed.

(** Zero divided by the square of a half axis that is neither zero nor
    NaN. *)
Lemma zero_over_square (d : binary64) :
  bin_iszero d = false -> bin_isnan d = false ->
  bin_iszero (bin_div (S754_zero false) d) = true.
Proof.
  destruct d; cbn [bin_iszero bin_isnan]; intros Hz Hn; try discriminate;
    reflexivity.
Qed.

Lemma zero_leb_one (v : binary64) :
  bin_iszero v = true -> bin_leb v (bin_of_Z 1) = true.
Proof.
  rewrite bin_one. destruct v; cbn [bin_iszero]; intro Hv; try discriminate.
  reflexivity.
Qed.

(** C8, as amended.  A galaxy whose centre is finite, whose rotation has
    a finite cosine and sine (as it has for every finite position angle),
    and whose squared half axes [(a / 2) ** 2] and [(b / 2) ** 2] are in
    range and neither zero nor NaN, contains its own centre. *)
Theorem center_contained64 `{Libm} (g : Galaxy64) :
  let sq_a := bin_mul (bin_div (a64 g) (bin_of_Z 2)) (bin_div (a64 g) (bin_of_Z 2)) in
  let sq_b := bin_mul (bin_div (b64 g) (bin_of_Z 2)) (bin_div (b64 g) (bin_of_Z 2)) in
  bin_isfinite (ra_deg64 g) = true ->
  bin_isfinite (dec_deg64 g) = true ->
  bin_isfinite (np_cos64 (rotation64 g)) = true ->
  bin_isfinite (np_sin64 (rotation64 g)) = true ->
  square_overflows (bin_div (a64 g) (bin_of_Z 2)) = false ->
  square_overflows (bin_div (b64 g) (bin_of_Z 2)) = false ->
  bin_iszero sq_a = false -> bin_isnan sq_a = false ->
  bin_iszero sq_b = false -> bin_isnan sq_b = false ->
  contains_point64 g (ra_deg64 g) (dec_deg64 g) = Ok true.
Proof.
  cbv zeta. intros Hra Hdec Hcos Hsin Hoa Hob Hza Hna Hzb Hnb.
  rewrite (contains_point64_unfold g _ _ Hoa Hob). f_equal.
  unfold spec_r_norm64, spec_rotated64. cbn [fst snd].
  rewrite (bin_sub_diag _ Hra), (bin_sub_diag _ Hdec).
  fold (rotation64 g).
  pose proof (bin_mul_zero_l false _ Hcos) as Hxc.
  pose proof (bin_mul_zero_l false _ Hsin) as Hxs.
  pose proof (bin_sub_zeros _ _ Hxc Hxs) as Hxt.
  pose proof (bin_add_zeros _ _ Hxs Hxc) as Hyt.
  fold (np_pow2 (bin_sub (bin_mul (S754_zero false) (np_cos64 (rotation64 g)))
                         (bin_mul (S754_zero false) (np_sin64 (rotation64 g))))).
  fold (np_pow2 (bin_add (bin_mul (S754_zero false) (np_sin64 (rotation64 g)))
                         (bin_mul (S754_zero false) (np_cos64 (rotation64 g))))).
  rewrite (np_pow2_zero _ Hxt), (np_pow2_zero _ Hyt).
  apply zero_leb_one, bin_add_zeros; now apply zero_over_square.
Qed.

Lemma center_contained64_witness :
  contains_point64 galaxy64_example (bin_of_Z 10) (bin_of_Z 20) = Ok true.
Proof.
  apply (center_contained64 galaxy64_example); vm_compute; reflexivity.
Defined.

(** C8, as stated, fails: the axes of a galaxy of radius 1e-160 arcmin are
    finite and positive, the square of their half underflows to zero, and
    the galaxy does not contain its own centre. *)
Lemma center_contained64_counterexample :
  bin_isfinite (a64 galaxy64_tiny) = true /\
  bin_isfinite (b64 galaxy64_tiny) = true /\
  SFltb (S754_zero false) (a64 galaxy64_tiny) = true /\
  SFltb (S754_zero false) (b64 galaxy64_tiny) = true /\
  contains_point64 galaxy64_tiny (ra_deg64 galaxy64_tiny)
                   (dec_deg64 galaxy64_tiny) = Ok false.
Proof. vm_compute. repeat split. Qed.

(** ** Half a turn of the position angle in binary64 *)










